(** * BFCL memory ingestion and search: a shallow embedding

    The two scripts [bfcl_ingestion.py] and [bfcl_search.py] push benchmark
    conversations into a memory backend and query it again.  This file
    embeds their orchestration logic: the resume filter, the per-task
    try/except of the worker loops, the progress ledger and result store,
    the merge-and-deduplicate step of the search path, and the session key.

    Conventions of the embedding.
    - A Python exception is a value of [exn]; code that may raise returns
      [result A].  A [try: ... except Exception] is a [match] on the result.
    - Python data that the scripts only pass around (JSON-like values) is
      [pyval]; dictionaries are association lists in insertion order.
      Floats and booleans do not occur in the embedded values.
    - The thread pool is embedded by its observable behaviour in the main
      thread: every submitted task has an outcome, and [as_completed] hands
      the futures to the main thread in some order (a permutation of the
      submitted tasks), which is a parameter of the run.
    - An open text file is a [file]: what has been written so far, and an
      oracle telling whether the next write (with its flush) succeeds. *)

From stdpp Require Import base decidable countable gmap list strings pretty.
From Stdlib Require Import ZArith Sorted.

(** The one-character string that Python writes as a backslash followed by
    [n]. *)
Definition newline : string := String (Ascii.ascii_of_nat 10) EmptyString.

(** ** Exceptions and fallible computations *)

Inductive exn_class :=
  | KeyError | IndexError | TypeError | ValueError | AttributeError
  | JSONDecodeError | OSError | BackendError.

(** [exn_str] is what [str(e)] gives in a log line. *)
Record exn := Exn { exn_kind : exn_class; exn_str : string }.

Inductive result (A : Type) : Type :=
  | Ok (a : A)
  | Raise (e : exn).
Arguments Ok {A} a.
Arguments Raise {A} e.

#[global] Instance result_ret : MRet result := λ A a, Ok a.
#[global] Instance result_bind : MBind result := λ A B f m,
  match m with
  | Ok a => f a
  | Raise e => Raise e
  end.

#[global] Instance exn_class_eq_dec : EqDecision exn_class.
Proof. solve_decision. Defined.
#[global] Instance exn_eq_dec : EqDecision exn.
Proof. solve_decision. Defined.
#[global] Instance result_eq_dec `{EqDecision A} : EqDecision (result A).
Proof. solve_decision. Defined.

Definition is_ok {A} (m : result A) : bool :=
  match m with Ok _ => true | Raise _ => false end.

(** [for x in l: acc = body(acc, x)] where the body may raise. *)
Fixpoint for_each {A S} (body : S → A → result S) (l : list A) (acc : S)
  : result S :=
  match l with
  | [] => Ok acc
  | x :: l' => acc' ← body acc x; for_each body l' acc'
  end.

(** A list comprehension [[f(x) for x in l]] whose element expression may
    raise. *)
Fixpoint comprehension {A B} (f : A → result B) (l : list A)
  : result (list B) :=
  match l with
  | [] => Ok []
  | x :: l' => y ← f x; ys ← comprehension f l'; Ok (y :: ys)
  end.

(** ** Python values *)

#[local] Unset Elimination Schemes.
Inductive pyval :=
  | PNone
  | PInt (z : Z)
  | PStr (s : string)
  | PList (l : list pyval)
  | PDict (d : list (string * pyval)).
#[local] Set Elimination Schemes.

Abbreviation pydict := (list (string * pyval)).

(** Hashable values, as they sit in a Python [set]. *)
Inductive pykey :=
  | KNone
  | KInt (z : Z)
  | KStr (s : string).

#[global] Instance pykey_eq_dec : EqDecision pykey.
Proof. solve_decision. Defined.

#[global] Instance pykey_countable : Countable pykey.
Proof.
  refine (inj_countable'
    (λ k, match k with
          | KNone => inl (inl ())
          | KInt z => inl (inr z)
          | KStr s => inr s
          end)
    (λ x, match x with
          | inl (inl _) => KNone
          | inl (inr z) => KInt z
          | inr s => KStr s
          end) _).
  by intros [].
Defined.

(** [hash(v)]: lists and dicts are unhashable. *)
Definition py_hash (v : pyval) : result pykey :=
  match v with
  | PNone => Ok KNone
  | PInt z => Ok (KInt z)
  | PStr s => Ok (KStr s)
  | PList _ => Raise (Exn TypeError "unhashable type: 'list'")
  | PDict _ => Raise (Exn TypeError "unhashable type: 'dict'")
  end.

(** [d.get(k)] on a dict: the first binding of [k]. *)
Fixpoint dict_lookup (d : pydict) (k : string) : option pyval :=
  match d with
  | [] => None
  | (k', v) :: d' => if decide (k' = k) then Some v else dict_lookup d' k
  end.

(** [d.get(k)], with Python's default [None]. *)
Definition dict_get (d : pydict) (k : string) : pyval :=
  default PNone (dict_lookup d k).

(** [d[k]] on a dict. *)
Definition dict_item (d : pydict) (k : string) : result pyval :=
  match dict_lookup d k with
  | Some v => Ok v
  | None => Raise (Exn KeyError k)
  end.

(** [v[k]] for a string [k]. *)
Definition py_getitem (v : pyval) (k : string) : result pyval :=
  match v with
  | PDict d => dict_item d k
  | PNone => Raise (Exn TypeError "'NoneType' object is not subscriptable")
  | PInt _ => Raise (Exn TypeError "'int' object is not subscriptable")
  | PStr _ => Raise (Exn TypeError "string indices must be integers")
  | PList _ => Raise (Exn TypeError "list indices must be integers or slices")
  end.

(** [v[0]]. *)
Definition py_first (v : pyval) : result pyval :=
  match v with
  | PList (x :: _) => Ok x
  | PList [] => Raise (Exn IndexError "list index out of range")
  | PStr (String c _) => Ok (PStr (String c EmptyString))
  | PStr EmptyString => Raise (Exn IndexError "string index out of range")
  | PDict _ => Raise (Exn KeyError "0")
  | PNone => Raise (Exn TypeError "'NoneType' object is not subscriptable")
  | PInt _ => Raise (Exn TypeError "'int' object is not subscriptable")
  end.

(** [v[:n]]. *)
Definition py_slice_to (n : nat) (v : pyval) : result pyval :=
  match v with
  | PStr s => Ok (PStr (String.substring 0 n s))
  | PList l => Ok (PList (take n l))
  | PDict _ => Raise (Exn TypeError "unhashable type: 'slice'")
  | PNone => Raise (Exn TypeError "'NoneType' object is not subscriptable")
  | PInt _ => Raise (Exn TypeError "'int' object is not subscriptable")
  end.

Fixpoint chars (s : string) : list pyval :=
  match s with
  | EmptyString => []
  | String c s' => PStr (String c EmptyString) :: chars s'
  end.

(** [iter(v)], run to the end. *)
Definition py_iter (v : pyval) : result (list pyval) :=
  match v with
  | PList l => Ok l
  | PDict d => Ok (map (λ kv, PStr kv.1) d)
  | PStr s => Ok (chars s)
  | PNone => Raise (Exn TypeError "'NoneType' object is not iterable")
  | PInt _ => Raise (Exn TypeError "'int' object is not iterable")
  end.

(** ** The process environment and the Python library

    What the scripts take from outside the repository: the environment
    variables, the clock (one reading per message index, and one as a
    timestamp), and four library functions whose result the scripts only
    pass on: [dict(x)] on a value that is neither a dict nor an instance,
    [str(x)] inside an f-string, [json.dumps] and [json.loads]. *)

Class Runtime := {
  getenv : string → option string;
  now_isoformat : nat → string;
  now_timestamp : Z;
  py_dict : pyval → result pydict;
  py_str : pyval → string;
  json_dumps : pyval → string;
  json_loads : string → result pyval;
}.

(** [os.getenv(name, default)]. *)
Definition getenv_default `{Runtime} (name dflt : string) : string :=
  default dflt (getenv name).

(** ** Backend clients *)

(** The third argument of [client.add], which differs per backend. *)
Inductive add_extra :=
  | NoExtra
  | ConvId (conv_id : string)
  | ChatTime (iso : string)
  | Timestamp (t : Z).

Record add_call := AddCall {
  add_messages : list pyval;
  add_user_id : string;
  add_third : add_extra;
}.

(** A memory record as a backend returns it: a plain value (a dict, for
    the dict-based backends) or a class instance with its [__dict__]. *)
Inductive mem_item :=
  | MVal (v : pyval)
  | MObj (attrs : pydict).

(** A search response: a plain value, or an instance with a [results]
    attribute. *)
Inductive response :=
  | RespVal (v : pyval)
  | RespObj (results : list mem_item).

Record client := Client {
  client_add : add_call → result unit;
  client_search : string → string → Z → result response;
}.

(** ** Open files *)

Record file := File {
  written : list string;
  accepts : list string → string → bool;
}.

(** [f.write(s); f.flush()]. *)
Definition file_write (f : file) (s : string) : result file :=
  if accepts f (written f) s
  then Ok (File (written f ++ [s]) (accepts f))
  else Raise (Exn OSError "write failed").

(** ** Benchmark entries and the code outside the two scripts *)

(** A benchmark entry: its identifier and, when present, its turns of
    role/content messages. *)
Record message := Message { role : string; content : string }.

Record test_case := TestCase {
  tc_id : string;
  question : option (list (list message));
}.

Record args := Args {
  test_category : list string;
  run_ids : bool;
  allow_overwrite : bool;
  num_threads : Z;
}.

(** What the search script imports from [bfcl_eval] and [utils.client],
    which are not part of these two files: the sort key of an entry with
    the order on keys, the loaders of benchmark entries, and the
    constructors of the client classes (by backend name). *)
Class Collaborators := {
  sort_key_t : Type;
  sort_key : test_case → result sort_key_t;
  key_leb : sort_key_t → sort_key_t → bool;
  load_test_entries_from_id_file : result (list string * list test_case);
  parse_test_category_argument : list string → result (list string);
  load_dataset_entry : string → result (list test_case);
  make_client : string → client;
}.

(** [str.strip()] on the ASCII range. *)
Definition py_isspace (c : Ascii.ascii) : bool :=
  let n := Ascii.nat_of_ascii c in
  bool_decide (9 ≤ n ≤ 13 ∨ 28 ≤ n ≤ 32)%nat.

Fixpoint lstrip (s : string) : string :=
  match s with
  | EmptyString => EmptyString
  | String c s' => if py_isspace c then lstrip s' else s
  end.

Definition strip (s : string) : string :=
  String.rev (lstrip (String.rev (lstrip s))).

(** ** Ingestion ([bfcl_ingestion.py]) *)

(** A conversation as [load_data] hands it over: its identifier, a
    string, and the messages of its trajectory. *)
Record conversation := Conversation {
  sample_id : string;
  trajectory : list pyval;
}.

#[global] Instance conversation_inhabited : Inhabited conversation :=
  populate (Conversation "" []).

(** The session key [f"{task_id}_{frame}_{version}"]. *)
Definition session_key (task_id frame version : string) : string :=
  task_id +:+ "_" +:+ frame +:+ "_" +:+ version.

Definition valid_frames : list string :=
  ["memobase"; "memos-api"; "memos-api-online"; "memu"; "supermemory"; "mem0"].

Section ingestion.
Context {rt : Runtime} {co : Collaborators}.


(** One turn of the loop that rebuilds the messages for the "memobase"
    and "supermemory" backends. *)
Definition rebuild_message (idx : nat) (msg : pyval) : result pyval :=
  role ← py_getitem msg "role";
  content ← py_getitem msg "content";
  content' ← py_slice_to (Z.to_nat 8000) content;
  Ok (PDict [("role", role); ("content", content');
             ("chat_time", PStr (now_isoformat idx))]).

Fixpoint rebuild_messages (idx : nat) (trajectory : list pyval)
  : result (list pyval) :=
  match trajectory with
  | [] => Ok []
  | msg :: rest =>
      m ← rebuild_message idx msg;
      ms ← rebuild_messages (S idx) rest;
      Ok (m :: ms)
  end.

(** The arguments [process_single_conversation] passes to [client.add]. *)
Definition add_call_of (c : conversation) (frame : string)
  : result add_call :=
  let version := getenv_default "VERSION" "default_version" in
  let user_id := session_key (sample_id c) frame version in
  if decide (frame = "memobase") then
    messages ← rebuild_messages 0 (trajectory c);
    Ok (AddCall messages user_id NoExtra)
  else if decide (frame = "memos-api") then
    Ok (AddCall (trajectory c) user_id (ConvId ""))
  else if decide (frame = "memos-api-online") then
    Ok (AddCall (trajectory c) user_id NoExtra)
  else if decide (frame = "memu") then
    Ok (AddCall (trajectory c) user_id (ChatTime (now_isoformat 0)))
  else if decide (frame = "supermemory") then
    messages ← rebuild_messages 0 (trajectory c);
    Ok (AddCall messages user_id NoExtra)
  else if decide (frame = "mem0") then
    Ok (AddCall (trajectory c) user_id (Timestamp now_timestamp))
  else Raise (Exn ValueError ("Invalid frame: " +:+ frame)).

Definition process_single_conversation (c : conversation) (cl : client)
    (frame : string) : result unit :=
  call ← add_call_of c frame;
  client_add cl call.

(** The conversations handed to [executor.submit], in submission order. *)
Definition submitted (data : list conversation)
    (success_records : list string) : list conversation :=
  filter (λ c, sample_id c ∉ success_records) data.

(** The state of the main thread while it drains the futures. *)
Record ingest_state := IngestState {
  completed_count : nat;
  ledger : option file;
  stdout : list string;
  pbar : nat;
}.

(** The line [f"{conversation['sample_id']}\n"] written to the ledger. *)
Definition ledger_line (c : conversation) : string :=
  sample_id c +:+ newline.

(** The future of [c] returns without raising. *)
Definition succeeded (outcome : conversation → result unit)
    (c : conversation) : Prop :=
  is_ok (outcome c).

Definition ingest_error_line (c : conversation) (e : exn) : string :=
  "Error processing conversation " +:+ sample_id c +:+ ": " +:+ exn_str e.

(** The body of [for future in as_completed(...)], for the future of
    conversation [c] whose call ended with [outcome]. *)
Definition ingest_step (outcome : conversation → result unit)
    (st : ingest_state) (c : conversation) : ingest_state :=
  let attempt : result ingest_state :=
    _ ← outcome c;
    let count := S (completed_count st) in
    match ledger st with
    | None => Ok (IngestState count None (stdout st) (pbar st))
    | Some f =>
        match file_write f (ledger_line c) with
        | Ok f' => Ok (IngestState count (Some f') (stdout st) (pbar st))
        | Raise e =>
            (* the count was already incremented when the write raises *)
            Ok (IngestState count (Some f)
                  (stdout st ++ [ingest_error_line c e]) (pbar st))
        end
    end in
  let st' :=
    match attempt with
    | Ok st' => st'
    | Raise e =>
        IngestState (completed_count st) (ledger st)
          (stdout st ++ [ingest_error_line c e]) (pbar st)
    end in
  IngestState (completed_count st') (ledger st') (stdout st') (S (pbar st')).

Record ingest_report := IngestReport {
  report_completed : nat;
  report_total : nat;
  report_ledger : option file;
  report_stdout : list string;
  report_pbar : nat;
}.

(** [ingest_conversation]; [as_completed] is the order in which the
    futures reach the main thread. *)
Definition ingest_conversation
    (as_completed : list conversation → list conversation)
    (data : list conversation) (cl : client) (frame : string)
    (max_workers : Z) (success_records : list string) (f : option file)
  : ingest_report :=
  let futures := submitted data success_records in
  let total_to_process := length futures in
  let start_line :=
    "Starting ingestion of " +:+ pretty total_to_process
      +:+ " conversations using " +:+ pretty max_workers +:+ " workers..." in
  let st :=
    foldl (ingest_step (λ c, process_single_conversation c cl frame))
      (IngestState 0 f [start_line] 0) (as_completed futures) in
  let final_line :=
    "Successfully ingested " +:+ pretty (completed_count st) +:+ "/"
      +:+ pretty total_to_process +:+ " conversations" in
  IngestReport (completed_count st) total_to_process (ledger st)
    (stdout st ++ [final_line]) (pbar st).

(** The lines of [success_records.txt], stripped. *)
Definition load_success_records (record_file : option (list string))
  : list string :=
  match record_file with
  | Some lines => map strip lines
  | None => []
  end.


End ingestion.

(** ** Search ([bfcl_search.py]) *)

(** [sep.join(parts)]. *)
Definition join (sep : string) (parts : list string) : string :=
  String.concat sep parts.

(** [enumerate(l)], counting from [i]. *)
Fixpoint enumerate {A} (i : nat) (l : list A) : list (nat * A) :=
  match l with
  | [] => []
  | x :: l' => (i, x) :: enumerate (S i) l'
  end.

(** [[x for x in l if cond(x)]] with a condition that may raise. *)
Fixpoint filter_raising {A} (cond : A → result bool) (l : list A)
  : result (list A) :=
  match l with
  | [] => Ok []
  | x :: l' =>
      b ← cond x;
      rest ← filter_raising cond l';
      Ok (if b : bool then x :: rest else rest)
  end.

(** [v == "ToolTrajectoryMemory"]. *)
Definition is_tool_trajectory (v : pyval) : bool :=
  match v with
  | PStr s => bool_decide (s = "ToolTrajectoryMemory")
  | _ => false
  end.

(** What [search_memory] returns: a value still to be iterated, or the
    list held by a response object. *)
Inductive memories :=
  | MemVal (v : pyval)
  | MemItems (l : list mem_item).

(** Iterating the argument of [mem_list.extend]. *)
Definition iterate (m : memories) : result (list mem_item) :=
  match m with
  | MemVal v => l ← py_iter v; Ok (map MVal l)
  | MemItems l => Ok l
  end.

(** The record [search_single_test_case] returns. *)
Record search_result := SearchResult {
  res_id : string;
  res_questions : list string;
  res_memories : list pydict;
  res_mem_context : string;
}.

Definition search_result_json (r : search_result) : pyval :=
  PDict [("id", PStr (res_id r));
         ("questions", PList (map PStr (res_questions r)));
         ("memories", PList (map PDict (res_memories r)));
         ("mem_context", PStr (res_mem_context r))].

Section search.
Context {rt : Runtime} {co : Collaborators}.

(** An f-string field holding the result of [os.getenv]. *)
Definition format_env (v : option string) : string := default "None" v.

Definition get_client : result client :=
  match getenv "FRAME" with
  | Some frame =>
      if decide (frame ∈ valid_frames) then Ok (make_client frame)
      else Raise (Exn ValueError ("Invalid frame: " +:+ frame))
  | None => Raise (Exn ValueError "Invalid frame: None")
  end.

(** The session key [search_memory] sends to the backend. *)
Definition search_user_id (test_entry_id : string) : string :=
  let version := getenv_default "VERSION" "default_version" in
  let frame := getenv "FRAME" in
  session_key test_entry_id (format_env frame) version.

Definition search_memory (cl : client) (query test_entry_id : string)
    (top_k : Z) : result memories :=
  let frame := getenv "FRAME" in
  let user_id := search_user_id test_entry_id in
  search_rsps ← client_search cl query user_id top_k;
  if decide (frame = Some "memos-api") then
    match search_rsps with
    | RespVal v =>
        tool_mem ← py_getitem v "tool_mem";
        first ← py_first tool_mem;
        mems ← py_getitem first "memories";
        items ← py_iter mems;
        kept ← filter_raising
          (λ mem, metadata ← py_getitem mem "metadata";
                  memory_type ← py_getitem metadata "memory_type";
                  Ok (is_tool_trajectory memory_type)) items;
        Ok (MemItems (map MVal kept))
    | RespObj _ =>
        Raise (Exn TypeError "object is not subscriptable")
    end
  else if decide (frame = Some "mem0") then
    match search_rsps with
    | RespVal v => results ← py_getitem v "results"; Ok (MemVal results)
    | RespObj _ =>
        Raise (Exn TypeError "object is not subscriptable")
    end
  else if decide (frame = Some "supermemory") then
    match search_rsps with
    | RespObj results => Ok (MemItems results)
    | RespVal _ =>
        Raise (Exn AttributeError "object has no attribute 'results'")
    end
  else Raise (Exn ValueError ("Invalid frame: " +:+ format_env frame)).

(** Every element of the argument of [str.join] must be a [str]. *)
Definition as_str (v : pyval) : result string :=
  match v with
  | PStr s => Ok s
  | _ => Raise (Exn TypeError "sequence item: expected str instance")
  end.

Definition create_mem_context (mems : list pydict) : result string :=
  let frame := getenv "FRAME" in
  mem_context ←
    (if decide (frame = Some "memos-api") then
       let text_mem_context := "" in
       tool_trajectory_memories ← filter_raising
         (λ item, metadata ← dict_item item "metadata";
                  memory_type ← py_getitem metadata "memory_type";
                  Ok (is_tool_trajectory memory_type)) mems;
       lines ← comprehension
         (λ '(i, item),
            memory ← dict_item item "memory";
            metadata ← dict_item item "metadata";
            experience ← py_getitem metadata "experience";
            metadata' ← dict_item item "metadata";
            status ← py_getitem metadata' "tool_used_status";
            Ok (pretty (S i) +:+ ". tool_trajectory: " +:+ py_str memory
                  +:+ newline +:+ "experience: " +:+ py_str experience
                  +:+ newline +:+ "tool_used_status: "
                  +:+ json_dumps status))
         (enumerate 0 tool_trajectory_memories);
       let tool_mem_context := join newline lines in
       let tool_mem_context :=
         if decide (tool_mem_context = "") then tool_mem_context
         else "Tool Memory:" +:+ newline +:+ tool_mem_context in
       Ok (text_mem_context +:+ newline +:+ tool_mem_context)
     else if decide (frame = Some "mem0") then
       lines ← comprehension
         (λ memory, created_at ← dict_item memory "created_at";
                    text ← dict_item memory "memory";
                    Ok (py_str created_at +:+ ": " +:+ py_str text)) mems;
       Ok (join newline lines)
     else if decide (frame = Some "supermemory") then
       texts ← comprehension (λ memory, dict_item memory "memory") mems;
       lines ← comprehension as_str texts;
       Ok (join newline lines)
     else Raise (Exn ValueError ("Invalid frame: " +:+ format_env frame)));
  Ok (strip mem_context).

Definition get_involved_test_entries (test_category_args : list string)
    (run_ids : bool) : result (list string * list test_case) :=
  if run_ids then load_test_entries_from_id_file
  else
    all_test_categories ← parse_test_category_argument test_category_args;
    all_test_entries_involved ← for_each
      (λ acc test_category,
         entries ← load_dataset_entry test_category; Ok (acc ++ entries))
      all_test_categories [];
    Ok (all_test_categories, all_test_entries_involved).

(** [sorted(l, key=sort_key)]: the keys are computed first, then the
    entries are put in key order, entries with equal keys keeping their
    order. *)
Fixpoint insert_by_key (x : sort_key_t * test_case)
    (l : list (sort_key_t * test_case)) : list (sort_key_t * test_case) :=
  match l with
  | [] => [x]
  | y :: l' =>
      if key_leb x.1 y.1 then x :: y :: l' else y :: insert_by_key x l'
  end.

Definition sort_by_key (l : list (sort_key_t * test_case))
  : list (sort_key_t * test_case) :=
  foldr insert_by_key [] l.

Definition sorted (l : list test_case) : result (list test_case) :=
  keyed ← comprehension (λ tc, k ← sort_key tc; Ok (k, tc)) l;
  Ok (map snd (sort_by_key keyed)).

(** The ids read from the lines of an existing [search_results.jsonl]. *)
Definition load_existing_ids (lines : list string) : result (gset pykey) :=
  for_each
    (λ existing_ids line,
       entry ← json_loads line;
       id ← py_getitem entry "id";
       k ← py_hash id;
       Ok ({[k]} ∪ existing_ids))
    lines ∅.

(** The ids already in [search_results.jsonl]: those of
    the lines of the file, or none when there is no file. *)
Definition stored_ids (disk : option (list string)) : result (gset pykey) :=
  match disk with
  | Some lines => load_existing_ids lines
  | None => Ok ∅
  end.

(** [collect_test_cases].  [disk] is the content of
    [search_results.jsonl] (its lines), or [None] when the file does not
    exist; the first component of the result is the file afterwards. *)
Definition collect_test_cases (a : args) (disk : option (list string))
    (all_test_entries_involved : list test_case)
  : option (list string) * result (list test_case) :=
  let '(disk', existing_ids) :=
    match disk with
    | Some lines =>
        if negb (allow_overwrite a) then (disk, load_existing_ids lines)
        else if negb (run_ids a) then (None, Ok ∅)
        else (disk, Ok ∅)
    | None => (disk, Ok ∅)
    end in
  (disk',
   existing_ids ← existing_ids;
   sorted (filter (λ tc, KStr (tc_id tc) ∉ (existing_ids : gset pykey))
             all_test_entries_involved)).

(** The user questions of a test case, in order. *)
Definition all_questions (tc : test_case) : list string :=
  match question tc with
  | Some turns =>
      concat (map (λ turn,
        map content (filter (λ msg, role msg = "user") turn)) turns)
  | None => []
  end.

Definition search_error_line (test_entry_id question : string) (e : exn)
  : string :=
  "Error searching for test case " +:+ test_entry_id +:+ ", question: "
    +:+ String.substring 0 50 question +:+ "... Error: " +:+ exn_str e.

(** What the search for one question contributes to [mem_list]: the
    memories found, or nothing when the search raises. *)
Definition question_memories (cl : client) (test_entry_id : string)
    (top_k : Z) (q : string) : list mem_item :=
  match (found ← search_memory cl q test_entry_id top_k; iterate found) with
  | Ok found => found
  | Raise _ => []
  end.

(** The loop over the questions: the memories found so far and the lines
    written with [tqdm.write]. *)
Definition search_question (cl : client) (test_entry_id : string)
    (top_k : Z) (acc : list mem_item * list string) (q : string)
  : list mem_item * list string :=
  match (found ← search_memory cl q test_entry_id top_k; iterate found) with
  | Ok found => (acc.1 ++ found, acc.2)
  | Raise e => (acc.1, acc.2 ++ [search_error_line test_entry_id q e])
  end.

Definition search_all (cl : client) (test_entry_id : string) (top_k : Z)
    (questions : list string) : list mem_item * list string :=
  foldl (search_question cl test_entry_id top_k) ([], []) questions.

(** [item.__dict__ if hasattr(item, '__dict__') else dict(item)], for an
    item that is not a dict. *)
Definition normalize (item : mem_item) : result pydict :=
  match item with
  | MVal (PDict d) => Ok d
  | MObj attrs => Ok attrs
  | MVal v => py_dict v
  end.

(** The deduplication key of a normalized memory: [item.get("id")], as
    it is hashed for the set [seen_ids]. *)
Definition id_key (d : pydict) : result pykey := py_hash (dict_get d "id").

(** One turn of the deduplication loop. *)
Definition dedup_step (acc : gset pykey * list pydict) (item : mem_item)
  : result (gset pykey * list pydict) :=
  d ← normalize item;
  item_id ← id_key d;
  if decide (item_id ∉ acc.1) then Ok ({[item_id]} ∪ acc.1, acc.2 ++ [d])
  else Ok acc.

Definition dedup (mem_list : list mem_item) : result (list pydict) :=
  acc ← for_each dedup_step mem_list (∅, []);
  Ok acc.2.

Definition context_error_line (test_entry_id : string) (e : exn) : string :=
  "Error creating memory context for test case " +:+ test_entry_id
    +:+ ": " +:+ exn_str e.

(** [search_single_test_case]: the lines it writes with [tqdm.write], and
    its result or the exception it raises. *)
Definition search_single_test_case (cl : client) (tc : test_case)
    (top_k : Z) : list string * result search_result :=
  let test_entry_id := tc_id tc in
  let questions := all_questions tc in
  let '(mem_list, log) := search_all cl test_entry_id top_k questions in
  match dedup mem_list with
  | Raise e => (log, Raise e)
  | Ok dedup_mem_list =>
      let '(mem_context, log) :=
        match dedup_mem_list with
        | [] => ("", log)
        | _ :: _ =>
            match create_mem_context dedup_mem_list with
            | Ok ctx => (ctx, log)
            | Raise e => ("", log ++ [context_error_line test_entry_id e])
            end
        end in
      (log,
       Ok (SearchResult test_entry_id questions dedup_mem_list mem_context))
  end.

(** The state of the main thread of [generate_search_results]. *)
Record search_state := SearchState {
  store : file;
  tqdm_log : list string;
  search_pbar : nat;
}.

Definition task_error_line (tc : test_case) (e : exn) : string :=
  "Error processing test case " +:+ tc_id tc +:+ ": " +:+ exn_str e.

(** The line [json.dumps(result) + "\n"] of a result. *)
Definition result_line (r : search_result) : string :=
  json_dumps (search_result_json r) +:+ newline.

(** The line a task contributes to the result store when its future
    returns a result. *)
Definition task_line (cl : client) (tc : test_case) : option string :=
  match (search_single_test_case cl tc 10).2 with
  | Ok r => Some (result_line r)
  | Raise _ => None
  end.

(** The body of [for future in as_completed(futures)] for the future of
    [tc].  The lines a worker wrote are attributed to the moment its
    future is collected. *)
Definition search_step (cl : client) (st : search_state) (tc : test_case)
  : search_state :=
  let '(worker_log, outcome) := search_single_test_case cl tc 10 in
  let attempt :=
    result ← outcome;
    file_write (store st) (result_line result) in
  match attempt with
  | Ok f' =>
      SearchState f' (tqdm_log st ++ worker_log) (S (search_pbar st))
  | Raise e =>
      SearchState (store st)
        (tqdm_log st ++ worker_log ++ [task_error_line tc e])
        (S (search_pbar st))
  end.

(** [generate_search_results]; [accepts] is the write oracle of the file
    opened in append mode. *)
Definition generate_search_results
    (as_completed : list test_case → list test_case)
    (disk : option (list string)) (accepts : list string → string → bool)
    (test_cases_total : list test_case) : result search_state :=
  cl ← get_client;
  let f := File (default [] disk) accepts in
  Ok (foldl (search_step cl) (SearchState f [] 0)
        (as_completed test_cases_total)).


(** [main]: the content of [search_results.jsonl] afterwards, and the
    lines written with [tqdm.write] or the exception that ends the
    script. *)
Definition main (as_completed : list test_case → list test_case)
    (a : args) (disk : option (list string))
    (accepts : list string → string → bool)
  : option (list string) * result (list string) :=
  match get_involved_test_entries (test_category a) (run_ids a) with
  | Raise e => (disk, Raise e)
  | Ok (all_test_categories, all_test_entries_involved) =>
      let categories_line :=
        "Generating search results for categories: "
          +:+ py_str (PList (map PStr all_test_categories)) in
      let '(disk, collected) :=
        collect_test_cases a disk all_test_entries_involved in
      match collected with
      | Raise e => (disk, Raise e)
      | Ok [] =>
          (disk,
           Ok [categories_line;
               "✅ All selected test cases already have search results. No new search to generate."])
      | Ok test_cases_total =>
          match generate_search_results as_completed disk accepts
                  test_cases_total with
          | Raise e => (disk, Raise e)
          | Ok st =>
              (Some (written (store st)),
               Ok (categories_line :: tqdm_log st ++
                     ["✅ Generated search results for "
                        +:+ pretty (length test_cases_total)
                        +:+ " test cases."]))
          end
      end
  end.

End search.

(** [str.rstrip()] on the ASCII range; [strip s] is [rstrip (lstrip s)]. *)
Definition rstrip (s : string) : string :=
  String.rev (lstrip (String.rev s)).

(** ** Loading the conversations ([load_data])

    The directory is what the script finds at [data_dir]: [None] when the
    path does not exist, else its files in the order [glob] lists them,
    each with its name and its lines. *)

(** The names [Path.glob("*.jsonl")] matches. *)
Definition is_jsonl (name : string) : bool :=
  String.prefix (String.rev ".jsonl") (String.rev name).

Section loading.
Context {rt : Runtime}.

Definition parse_warning (name : string) (line_num : nat) (e : exn)
  : string :=
  "Warning: Failed to parse line " +:+ pretty line_num +:+ " in " +:+ name
    +:+ ": " +:+ exn_str e.

(** The body of the loop over the lines of one file: the records loaded
    so far and the lines printed.  Only a [JSONDecodeError] is caught. *)
Definition load_line (name : string) (acc : list pyval * list string)
    (numbered : nat * string) : result (list pyval * list string) :=
  let line := strip numbered.2 in
  if decide (line = "") then Ok acc
  else
    match json_loads line with
    | Ok json_obj => Ok (acc.1 ++ [json_obj], acc.2)
    | Raise e =>
        if decide (exn_kind e = JSONDecodeError)
        then Ok (acc.1, acc.2 ++ [parse_warning name numbered.1 e])
        else Raise e
    end.

(** The body of the loop over the files. *)
Definition load_file (acc : list pyval * list string)
    (jsonl_file : string * list string) : result (list pyval * list string) :=
  for_each (load_line jsonl_file.1) (enumerate 1 jsonl_file.2)
    (acc.1, acc.2 ++ ["Loading " +:+ jsonl_file.1 +:+ "..."]).

(** [load_data]: the records and the lines printed, or the exception
    raised ([FileNotFoundError] is an [OSError]). *)
Definition load_data (dir : option (list (string * list string)))
    (data_dir : string) : result (list pyval * list string) :=
  match dir with
  | None =>
      Raise (Exn OSError ("Directory " +:+ data_dir +:+ " does not exist"))
  | Some files =>
      let jsonl_files := filter (λ file, is_jsonl file.1) files in
      match jsonl_files with
      | [] => Ok ([], ["Warning: No .jsonl files found in " +:+ data_dir])
      | _ :: _ =>
          loaded ← for_each load_file jsonl_files ([], []);
          Ok (loaded.1,
              loaded.2 ++
                ["Loaded " +:+ pretty (length loaded.1) +:+ " records from "
                   +:+ pretty (length jsonl_files) +:+ " files"])
      end
  end.

(** The record a line stands for, if it stands for one: blank lines and
    lines that do not decode stand for none. *)
Definition line_record (line : string) : option pyval :=
  if decide (strip line = "") then None
  else match json_loads (strip line) with
       | Ok json_obj => Some json_obj
       | Raise _ => None
       end.

(** The records of the lines of a file. *)
Definition file_records (jsonl_file : string * list string) : list pyval :=
  omap line_record jsonl_file.2.

(** A line [load_data] gets past: blank, decodable, or failing with a
    [JSONDecodeError]. *)
Definition loadable (line : string) : Prop :=
  strip line = "" ∨
  match json_loads (strip line) with
  | Ok _ => True
  | Raise e => exn_kind e = JSONDecodeError
  end.

End loading.

(** ** The specification's reading of deduplication

    "First occurrence wins": the element at position [i] is kept exactly
    when no earlier position holds an element with the same key. *)

Definition first_occurrences `{EqDecision K} {A} (key : A → K) (l : list A)
  : list A :=
  concat (imap (λ i x, if decide (key x ∈ key <$> take i l) then [] else [x])
            l).

(** The same for a list that continues [before]: earlier positions include
    those of [before]. *)
Definition first_occurrences_after `{EqDecision K} {A} (key : A → K)
    (before l : list A) : list A :=
  concat (imap (λ i x, if decide (key x ∈ key <$> before ++ take i l)
                       then [] else [x]) l).

(** A memory without an [id] field. *)
Definition lacks_id (d : pydict) : Prop := dict_lookup d "id" = None.

#[global] Instance lacks_id_dec d : Decision (lacks_id d).
Proof. unfold lacks_id. apply _. Defined.

(** ** A small world to run the scripts in: three tasks A, B and C, a
    backend that rejects B, and memories identified by small numbers. *)

Module Sample.

Definition runtime (frame version : option string) : Runtime := {|
  getenv name :=
    if decide (name = "FRAME") then frame
    else if decide (name = "VERSION") then version
    else None;
  now_isoformat _ := "2025-01-01T00:00:00";
  now_timestamp := 1735689600%Z;
  py_dict _ := Raise (Exn TypeError "cannot convert to dict");
  py_str v :=
    match v with
    | PStr s => s
    | PInt z => pretty z
    | _ => "?"
    end;
  json_dumps v :=
    match v with
    | PDict (("id", PStr s) :: _) => s
    | _ => "null"
    end;
  json_loads line := Ok (PDict [("id", PStr (strip line))]);
|}.

Definition mem (n : Z) : pydict :=
  [("id", PInt n); ("memory", PStr (pretty n))].

Definition anon (text : string) : pydict := [("memory", PStr text)].

Definition turn (q : string) : list message :=
  [Message "user" q; Message "assistant" "ok"].

Definition case (id : string) (qs : list string) : test_case :=
  TestCase id (Some (map turn qs)).

(** The backend: adding for task B fails; the query "first" finds
    memories 1 and 2, "second" finds 2 and 3, "notes" finds three
    memories of which two have no id, "untitled" finds a memory without
    text, anything else fails. *)
Definition backend : client := {|
  client_add call :=
    if String.prefix "B_" (add_user_id call)
    then Raise (Exn BackendError "backend rejected B")
    else Ok ();
  client_search query user_id top_k :=
    if decide (query = "first") then
      Ok (RespObj [MObj (mem 1); MObj (mem 2)])
    else if decide (query = "second") then
      Ok (RespObj [MObj (mem 2); MObj (mem 3)])
    else if decide (query = "notes") then
      Ok (RespObj [MObj (anon "x"); MObj (mem 1); MObj (anon "y")])
    else if decide (query = "untitled") then
      Ok (RespObj [MObj [("id", PInt 7)]])
    else Raise (Exn BackendError "search failed");
|}.

Definition collaborators : Collaborators := {|
  sort_key_t := string;
  sort_key tc := Ok (tc_id tc);
  key_leb := String.leb;
  load_test_entries_from_id_file :=
    Ok (["simple"], [case "A" ["first"]; case "B" ["second"]]);
  parse_test_category_argument a := Ok a;
  load_dataset_entry _ :=
    Ok [case "C" ["first"; "second"]; case "A" ["first"];
        case "B" ["second"]];
  make_client _ := backend;
|}.

Definition conv (id : string) (text : string) : conversation :=
  Conversation id [PDict [("role", PStr "user"); ("content", PStr text);
                          ("tool", PNone)]].

Definition data : list conversation :=
  [conv "A" "hello"; conv "B" "world"; conv "C" "again"].

Definition reliable : list string → string → bool := λ _ _, true.
Definition broken : list string → string → bool := λ _ _, false.

(** The environments of the runs: the backend named by FRAME, with and
    without VERSION. *)
Definition supermemory : Runtime := runtime (Some "supermemory") None.
Definition mem0_v1 : Runtime := runtime (Some "mem0") (Some "v1").


Definition entries : list test_case :=
  [case "C" ["first"; "second"]; case "A" ["first"]; case "B" ["second"]].

Definition record_untitled : search_result :=
  SearchResult "T" ["untitled"] [[("id", PInt 7)]] "".


(** An environment whose decoder takes a line for an entry with that line
    as id when it starts with a brace, and rejects it otherwise. *)
Definition strict (frame : option string) : Runtime := {|
  getenv := @getenv (runtime frame None);
  now_isoformat := @now_isoformat (runtime frame None);
  now_timestamp := @now_timestamp (runtime frame None);
  py_dict := @py_dict (runtime frame None);
  py_str := @py_str (runtime frame None);
  json_dumps := @json_dumps (runtime frame None);
  json_loads line :=
    if String.prefix "{" line then Ok (PDict [("id", PStr line)])
    else Raise (Exn JSONDecodeError "Expecting value");
|}.

(** A string without its last character. *)
Fixpoint chop (s : string) : string :=
  match s with
  | EmptyString => EmptyString
  | String c EmptyString => EmptyString
  | String c s' => String c (chop s')
  end.

(** An environment whose decoder reads a written line back exactly: the
    line without its newline is the id. *)
Definition exact (frame : option string) : Runtime := {|
  getenv := @getenv (runtime frame None);
  now_isoformat := @now_isoformat (runtime frame None);
  now_timestamp := @now_timestamp (runtime frame None);
  py_dict := @py_dict (runtime frame None);
  py_str := @py_str (runtime frame None);
  json_dumps := @json_dumps (runtime frame None);
  json_loads line := Ok (PDict [("id", PStr (chop line))]);
|}.


(** A "memos-api" response with a tool trajectory and a text memory. *)
Definition tool_memory : pyval :=
  PDict [("id", PInt 1); ("memory", PStr "call f");
         ("metadata", PDict [("memory_type", PStr "ToolTrajectoryMemory");
                             ("experience", PStr "works");
                             ("tool_used_status", PNone)])].

Definition text_memory : pyval :=
  PDict [("id", PInt 2); ("memory", PStr "likes tea");
         ("metadata", PDict [("memory_type", PStr "TextMemory")])].

Definition memos_backend : client := {|
  client_add _ := Ok ();
  client_search _ _ _ :=
    Ok (RespVal (PDict [("tool_mem",
                         PList [PDict [("memories",
                                        PList [tool_memory; text_memory])]])]));
|}.

(** A backend whose memories carry a list as id. *)
Definition odd_backend : client := {|
  client_add _ := Ok ();
  client_search _ _ _ := Ok (RespObj [MObj [("id", PList [])]]);
|}.

(** A directory with a conversation file and a file of another kind. *)
Definition directory : list (string * list string) :=
  [("a.jsonl", ["{A}" +:+ newline; newline; "oops" +:+ newline; "{B}"]);
   ("notes.txt", ["{C}"])].


End Sample.

(** * Properties *)

(** ** Fallible loops *)

Lemma comprehension_total {A B} (f : A → result B) (l : list A) :
  Forall (λ x, is_ok (f x)) l → ∃ ys, comprehension f l = Ok ys.
Proof.
  induction 1 as [|x l Hx _ [ys IH]]; simpl; [by eexists|].
  destruct (f x); [|done]. simpl. rewrite IH. by eexists.
Qed.

(** ** The main-thread loop of the ingestion script *)

Section ingest_loop.
Context (outcome : conversation → result unit).

Lemma ingest_step_count st c :
  completed_count (ingest_step outcome st c) =
    (completed_count st + (if is_ok (outcome c) then 1 else 0))%nat.
Proof.
  unfold ingest_step. destruct (outcome c); simpl; [|lia].
  destruct (ledger st) as [f|]; simpl; [|lia].
  destruct (file_write f _); simpl; lia.
Qed.

Lemma ingest_step_pbar st c :
  pbar (ingest_step outcome st c) = S (pbar st).
Proof.
  unfold ingest_step. destruct (outcome c); simpl; [|done].
  destruct (ledger st) as [f|]; simpl; [|done].
  by destruct (file_write f _).
Qed.

Lemma ingest_step_stdout st c :
  ∃ more, stdout (ingest_step outcome st c) = stdout st ++ more ∧
    ∀ e, outcome c = Raise e → more = [ingest_error_line c e].
Proof.
  unfold ingest_step. destruct (outcome c) as [[]|e]; simpl.
  - destruct (ledger st) as [f|]; simpl.
    + destruct (file_write f _); simpl.
      * exists []. by rewrite app_nil_r.
      * eexists. split; [done|]. done.
    + exists []. by rewrite app_nil_r.
  - eexists. split; [done|]. by intros ? [= <-].
Qed.

Lemma ingest_step_ledger_none st c :
  ledger st = None → ledger (ingest_step outcome st c) = None.
Proof.
  intros Hl. unfold ingest_step. rewrite Hl.
  by destruct (outcome c).
Qed.

(** What one turn does to the ledger file. *)
Lemma ingest_step_ledger st c f :
  ledger st = Some f →
  ∃ f', ledger (ingest_step outcome st c) = Some f' ∧
    accepts f' = accepts f ∧
    written f' =
      written f ++
        (if decide (succeeded outcome c ∧ accepts f (written f) (ledger_line c))
         then [ledger_line c] else []).
Proof.
  intros Hl. unfold ingest_step, succeeded, file_write. rewrite Hl.
  destruct (outcome c) as [[]|e]; cbn [mbind result_bind is_ok].
  - destruct (accepts f (written f) (ledger_line c)) eqn:Hacc; cbn.
    + eexists. split; [done|]. split; [done|]. cbn.
      by rewrite decide_True by done.
    + exists f. split; [done|]. split; [done|].
      rewrite decide_False, app_nil_r; [done|]. by intros [_ ?].
  - exists f. split; [done|]. split; [done|].
    rewrite decide_False, app_nil_r; [done|]. by intros [? _].
Qed.

Lemma ingest_loop_count l st :
  completed_count (foldl (ingest_step outcome) st l) =
    (completed_count st + length (filter (succeeded outcome) l))%nat.
Proof.
  revert st. induction l as [|c l IH]; intros st; simpl; [lia|].
  rewrite IH, ingest_step_count, filter_cons. unfold succeeded.
  destruct (outcome c); simpl; lia.
Qed.

Lemma ingest_loop_pbar l st :
  pbar (foldl (ingest_step outcome) st l) = (pbar st + length l)%nat.
Proof.
  revert st. induction l as [|c l IH]; intros st; simpl; [lia|].
  rewrite IH, ingest_step_pbar. lia.
Qed.

Lemma ingest_loop_stdout_mono l st line :
  line ∈ stdout st → line ∈ stdout (foldl (ingest_step outcome) st l).
Proof.
  revert st. induction l as [|c l IH]; intros st Hin; simpl; [done|].
  apply IH. destruct (ingest_step_stdout st c) as (more & -> & _).
  set_solver.
Qed.

Lemma ingest_loop_logs_failure l st c e :
  c ∈ l → outcome c = Raise e →
  ingest_error_line c e ∈ stdout (foldl (ingest_step outcome) st l).
Proof.
  revert st. induction l as [|c' l IH]; intros st Hin He; [set_solver|].
  simpl. apply elem_of_cons in Hin as [<-|Hin]; [|by apply IH].
  apply ingest_loop_stdout_mono.
  destruct (ingest_step_stdout st c) as (more & -> & Hmore).
  rewrite (Hmore e He). set_solver.
Qed.

Lemma ingest_loop_ledger_none l st :
  ledger st = None → ledger (foldl (ingest_step outcome) st l) = None.
Proof.
  revert st. induction l as [|c l IH]; intros st Hl; simpl; [done|].
  by apply IH, ingest_step_ledger_none.
Qed.

(** The lines appended during the loop are lines of tasks that succeeded,
    in the order the futures were collected; with a file that accepts
    every write they are all of them. *)
Lemma ingest_loop_ledger l st f :
  ledger st = Some f →
  ∃ f' new, ledger (foldl (ingest_step outcome) st l) = Some f' ∧
    accepts f' = accepts f ∧
    written f' = written f ++ new ∧
    new `sublist_of` (ledger_line <$> filter (succeeded outcome) l) ∧
    ((∀ w s, accepts f w s = true) →
       new = ledger_line <$> filter (succeeded outcome) l).
Proof.
  revert st f. induction l as [|c l IH]; intros st f Hl; simpl.
  - exists f, []. rewrite app_nil_r. done.
  - destruct (ingest_step_ledger st c f Hl) as (f1 & Hl1 & Hacc1 & Hw1).
    destruct (IH _ f1 Hl1) as (f' & new & Hl' & Hacc' & Hw' & Hsub & Hall).
    exists f'. eexists. split; [done|]. split; [congruence|].
    split; [by rewrite Hw', Hw1, <-(assoc_L (++))|].
    rewrite filter_cons. split.
    + case_decide as Hc.
      * rewrite decide_True by apply Hc. simpl. by constructor.
      * simpl. destruct (decide (succeeded outcome c)); simpl; [|done].
        by apply sublist_cons.
    + intros Hok. rewrite Hall by (intros; rewrite Hacc1; apply Hok).
      rewrite Hok. destruct (decide (succeeded outcome c)).
      * by rewrite decide_True by done.
      * by rewrite decide_False by (by intros [? _]).
Qed.

End ingest_loop.

(** ** Sorting and the resume filter of the search script *)

Section collect.
Context {rt : Runtime} {co : Collaborators}.

Lemma insert_by_key_perm x l : insert_by_key x l ≡ₚ x :: l.
Proof.
  induction l as [|y l IH]; simpl; [done|].
  destruct (key_leb x.1 y.1); [done|].
  rewrite IH. apply Permutation_swap.
Qed.

Lemma sort_by_key_perm l : sort_by_key l ≡ₚ l.
Proof.
  induction l as [|x l IH]; simpl; [done|].
  by rewrite insert_by_key_perm, IH.
Qed.

Lemma keyed_entries l keyed :
  comprehension (λ tc, k ← sort_key tc; Ok (k, tc)) l = Ok keyed →
  keyed.*2 = l.
Proof.
  revert keyed. induction l as [|tc l IH]; intros keyed; simpl.
  - by intros [= <-].
  - destruct (sort_key tc); [|done]. cbn.
    destruct (comprehension _ l) as [keyed'|]; [|done]. cbn.
    intros [= <-]. cbn. f_equal. by apply IH.
Qed.

(** [sorted] only reorders. *)
Lemma sorted_perm l l' : sorted l = Ok l' → l' ≡ₚ l.
Proof.
  unfold sorted. destruct (comprehension _ l) as [keyed|] eqn:Hk; [|done].
  cbn. intros [= <-]. rewrite <-(keyed_entries l keyed Hk).
  apply fmap_Permutation, sort_by_key_perm.
Qed.

(** [sorted] returns when every key can be computed. *)
Lemma sorted_total l :
  Forall (λ tc, is_ok (sort_key tc)) l → ∃ l', sorted l = Ok l'.
Proof.
  intros Hl. unfold sorted.
  assert (Forall (λ tc, is_ok (k ← sort_key tc; Ok (k, tc))) l) as Hk.
  { eapply Forall_impl; [done|]. cbn beta. intros tc. by destruct (sort_key tc). }
  apply comprehension_total in Hk as [keyed ->]. cbn. by eexists.
Qed.

Lemma sorted_filter_total (P : test_case → Prop) `{∀ tc, Decision (P tc)} l :
  Forall (λ tc, is_ok (sort_key tc)) l →
  ∃ l', sorted (filter P l) = Ok l' ∧ l' ≡ₚ filter P l.
Proof.
  intros Hl. destruct (sorted_total (filter P l)) as [l' Hl'].
  - apply Forall_forall. intros tc [_ Hin]%list_elem_of_filter.
    by eapply Forall_forall in Hl.
  - exists l'. split; [done|]. by apply sorted_perm.
Qed.

(** The resume filter followed by [sorted]. *)
Lemma sorted_resume_filter (ids : gset pykey) l :
  Forall (λ tc, is_ok (sort_key tc)) l →
  ∃ l', sorted (filter (λ tc, KStr (tc_id tc) ∉ ids) l) = Ok l' ∧
        l' ≡ₚ filter (λ tc, KStr (tc_id tc) ∉ ids) l.
Proof. apply sorted_filter_total. Qed.

End collect.

(** ** Strings *)

Lemma string_length_app (s t : string) :
  String.length (s +:+ t) = (String.length s + String.length t)%nat.
Proof. induction s as [|c s IH]; simpl; [done|]. by rewrite IH. Qed.

Lemma string_app_cancel_r (s1 s2 t : string) :
  s1 +:+ t = s2 +:+ t → s1 = s2.
Proof.
  revert s2. induction s1 as [|c s1 IH]; intros [|c' s2] Heq; simpl in *.
  - done.
  - apply (f_equal String.length) in Heq.
    rewrite !string_length_app in Heq. simpl in Heq. lia.
  - apply (f_equal String.length) in Heq.
    rewrite !string_length_app in Heq. simpl in Heq. lia.
  - injection Heq as -> Heq. f_equal. by apply IH.
Qed.

Lemma ledger_line_inj c c' :
  ledger_line c = ledger_line c' → sample_id c = sample_id c'.
Proof. apply string_app_cancel_r. Qed.

(** ** Resume, failure isolation and persistence failures *)

Section orchestration.
Context {rt : Runtime} {co : Collaborators}.


(** C3 — Per-task failure isolation.  Whatever the order in which the
    futures complete, [ingest_conversation] handles every submitted
    conversation (none is cancelled), counts exactly those whose processing
    did not raise, prints an error line carrying the [sample_id] of each one
    that raised, and appends to the ledger only lines of conversations that
    succeeded: the identifier of a failed conversation is not appended
    (unless it is also the identifier of another conversation that
    succeeded), and with a ledger that accepts every write the appended
    lines are, up to order, those of the successful conversations. *)
Theorem failure_isolation_in_ingestion
    (as_completed : list conversation → list conversation)
    (data : list conversation) (cl : client) (frame : string) (workers : Z)
    (success_records : list string) (f : file) :
  (∀ l, as_completed l ≡ₚ l) →
  let outcome := λ c, process_single_conversation c cl frame in
  let tasks := submitted data success_records in
  let rep := ingest_conversation as_completed data cl frame workers
               success_records (Some f) in
  report_total rep = length tasks ∧
  report_pbar rep = length tasks ∧
  report_completed rep = length (filter (succeeded outcome) tasks) ∧
  (∀ c e, c ∈ tasks → outcome c = Raise e →
          ingest_error_line c e ∈ report_stdout rep) ∧
  ∃ f' new,
    report_ledger rep = Some f' ∧
    written f' = written f ++ new ∧
    new `sublist_of`
      (ledger_line <$> filter (succeeded outcome) (as_completed tasks)) ∧
    (∀ c, c ∈ tasks → ¬ succeeded outcome c →
          (∀ c', c' ∈ tasks → succeeded outcome c' →
                 sample_id c' ≠ sample_id c) →
          ledger_line c ∉ new) ∧
    ((∀ w s, accepts f w s = true) →
       new ≡ₚ ledger_line <$> filter (succeeded outcome) tasks).
Proof.
  intros Hperm outcome tasks rep. subst rep. unfold ingest_conversation.
  fold tasks. fold outcome. cbn [report_total report_pbar report_completed
    report_stdout report_ledger].
  split; [done|]. split; [|split; [|split]].
  - rewrite ingest_loop_pbar. cbn. by rewrite Hperm.
  - rewrite ingest_loop_count. cbn. by rewrite Hperm.
  - intros c e Hc He. apply elem_of_app. left.
    apply ingest_loop_logs_failure; [|done]. by rewrite Hperm.
  - match goal with
    | |- context [foldl _ ?st _] =>
        destruct (ingest_loop_ledger outcome (as_completed tasks) st f eq_refl)
          as (f' & new & Hl & _ & Hw & Hsub & Hall)
    end.
    exists f', new. split; [done|]. split; [done|]. split; [done|]. split.
    + intros c Hc Hfail Hother Hin.
      apply sublist_subseteq in Hsub. apply Hsub in Hin.
      apply list_elem_of_fmap in Hin as (c' & Hline & Hc').
      apply list_elem_of_filter in Hc' as [Hok Hc'].
      rewrite Hperm in Hc'. apply (Hother c' Hc' Hok).
      symmetry. by apply ledger_line_inj.
    + intros Hacc. rewrite (Hall Hacc). by rewrite Hperm.
Qed.

End orchestration.

(** ** The main-thread loop of the search script *)

Section search_loop.
Context {rt : Runtime} {co : Collaborators}.

Lemma search_step_pbar cl st tc :
  search_pbar (search_step cl st tc) = S (search_pbar st).
Proof.
  unfold search_step. destruct (search_single_test_case cl tc 10) as [wlog o].
  by destruct (_ ← o; _).
Qed.

(** What one turn does to the result store. *)
Lemma search_step_store cl st tc :
  accepts (store (search_step cl st tc)) = accepts (store st) ∧
  written (store (search_step cl st tc)) =
    written (store st) ++
      match task_line cl tc with
      | Some line =>
          if accepts (store st) (written (store st)) line then [line] else []
      | None => []
      end.
Proof.
  unfold search_step, task_line.
  destruct (search_single_test_case cl tc 10) as [wlog [r|e]]; cbn.
  - unfold file_write.
    destruct (accepts (store st) (written (store st)) (result_line r));
      cbn; by rewrite ?app_nil_r.
  - by rewrite app_nil_r.
Qed.

Lemma search_loop_pbar cl l st :
  search_pbar (foldl (search_step cl) st l) = (search_pbar st + length l)%nat.
Proof.
  revert st. induction l as [|tc l IH]; intros st; simpl; [lia|].
  rewrite IH, search_step_pbar. lia.
Qed.

(** The loop only appends to the store: lines of tasks that returned a
    result, in the order the futures were collected; all of them when the
    file accepts every write. *)
Lemma search_loop_store cl l st :
  ∃ new,
    written (store (foldl (search_step cl) st l)) = written (store st) ++ new ∧
    new `sublist_of` omap (task_line cl) l ∧
    ((∀ w s, accepts (store st) w s = true) → new = omap (task_line cl) l).
Proof.
  revert st. induction l as [|tc l IH]; intros st; simpl.
  - exists []. by rewrite app_nil_r.
  - destruct (IH (search_step cl st tc)) as (new & Hw & Hsub & Hall).
    destruct (search_step_store cl st tc) as [Hacc Hw1].
    eexists. split; [by rewrite Hw, Hw1, <-(assoc_L (++))|].
    destruct (task_line cl tc) as [line|]; simpl.
    + split.
      * destruct (accepts _ _ line); simpl; [by constructor|].
        by apply sublist_cons.
      * intros Hok. rewrite Hok. simpl. f_equal. apply Hall.
        intros w s. by rewrite Hacc.
    + split; [done|]. intros Hok. apply Hall. intros w s. by rewrite Hacc.
Qed.

(** With the run-ids flag the result file is never deleted. *)
Lemma collect_keeps_file a disk entries :
  run_ids a = true → (collect_test_cases a disk entries).1 = disk.
Proof.
  intros Hr. unfold collect_test_cases. rewrite Hr.
  destruct disk as [lines|]; [|done]. by destruct (allow_overwrite a).
Qed.

(** [main] leaves the lines of the file [collect_test_cases] hands over
    in place and only appends to them. *)
Lemma main_appends as_completed a disk accepts :
  let disk1 :=
    match get_involved_test_entries (test_category a) (run_ids a) with
    | Ok (_, entries) => (collect_test_cases a disk entries).1
    | Raise _ => disk
    end in
  (main as_completed a disk accepts).1 = disk1 ∨
  ∃ new, (main as_completed a disk accepts).1 = Some (default [] disk1 ++ new).
Proof.
  unfold main.
  destruct (get_involved_test_entries _ _) as [[cats entries]|e]; cbn zeta;
    [|by left].
  destruct (collect_test_cases a disk entries) as [disk1 [[|tc cases]|e]];
    cbn [fst]; [by left| |by left].
  unfold generate_search_results. destruct get_client as [cl|e]; cbn;
    [|by left].
  right.
  destruct (search_loop_store cl (as_completed (tc :: cases))
              (SearchState (File (default [] disk1) accepts) [] 0))
    as (new & Hw & _).
  exists new. by rewrite Hw.
Qed.

End search_loop.

(** ** Persistence failures, and the two flags of the search script *)

Section flags.
Context {rt : Runtime} {co : Collaborators}.


(** C5 (amended) — The run-ids flag alone does not bypass the exclusion:
    without the overwrite flag the named test cases whose id is already in
    the result file are left out like any other.  With both flags every
    named test case is returned, whatever the file holds.  In either case
    the file is not deleted by [collect_test_cases], and [main] leaves its
    lines in place and only appends to them. *)
Theorem run_ids_needs_overwrite_to_bypass
    (a : args) (disk : option (list string)) (entries : list test_case)
    (as_completed : list test_case → list test_case)
    (accepts : list string → string → bool) :
  run_ids a = true →
  Forall (λ tc, is_ok (sort_key tc)) entries →
  (allow_overwrite a = true →
     ∃ cases, collect_test_cases a disk entries = (disk, Ok cases) ∧
              cases ≡ₚ entries) ∧
  (allow_overwrite a = false →
     ∀ ids, stored_ids disk = Ok ids →
       ∃ cases, collect_test_cases a disk entries = (disk, Ok cases) ∧
                cases ≡ₚ filter (λ tc, KStr (tc_id tc) ∉ ids) entries) ∧
  ((main as_completed a disk accepts).1 = disk ∨
   ∃ new, (main as_completed a disk accepts).1 = Some (default [] disk ++ new)).
Proof.
  intros Hrun Hkeys. split; [|split].
  - intros Hov.
    destruct (sorted_resume_filter ∅ entries Hkeys) as (cases & Hsorted & Hperm).
    exists cases. split.
    + unfold collect_test_cases. rewrite Hov, Hrun.
      destruct disk; cbn; f_equal; exact Hsorted.
    + rewrite Hperm. clear. induction entries as [|tc l IH]; [done|].
      rewrite filter_cons_True by set_solver. by f_equiv.
  - intros Hov ids Hids.
    destruct (sorted_resume_filter ids entries Hkeys)
      as (cases & Hsorted & Hperm).
    exists cases. split; [|done].
    unfold collect_test_cases. rewrite Hov. unfold stored_ids in Hids.
    destruct disk as [lines|]; cbn; [rewrite Hids|injection Hids as <-];
      cbn; by rewrite Hsorted.
  - pose proof (main_appends as_completed a disk accepts) as Hmain.
    cbn zeta in Hmain.
    destruct (get_involved_test_entries _ _) as [[cats es]|e]; [|done].
    by rewrite collect_keeps_file in Hmain.
Qed.

(** C6 — Overwrite.  With the overwrite flag and without the run-ids flag,
    [collect_test_cases] leaves no result file behind and returns, up to
    order, the full list of candidates, whatever the file held.  The run
    that follows handles every one of them and, when the file accepts the
    writes, holds exactly the lines of the candidates whose search returned
    a result: lines of an earlier run are gone and every previously
    completed task is written again. *)
Theorem overwrite_clears_and_reprocesses
    (a : args) (disk : option (list string)) (entries : list test_case)
    (as_completed : list test_case → list test_case)
    (accepts : list string → string → bool) (cl : client) :
  allow_overwrite a = true →
  run_ids a = false →
  Forall (λ tc, is_ok (sort_key tc)) entries →
  (∀ l, as_completed l ≡ₚ l) →
  get_client = Ok cl →
  (∀ w s, accepts w s = true) →
  ∃ cases st,
    collect_test_cases a disk entries = (None, Ok cases) ∧
    cases ≡ₚ entries ∧
    generate_search_results as_completed None accepts cases = Ok st ∧
    search_pbar st = length entries ∧
    written (store st) = omap (task_line cl) (as_completed cases) ∧
    written (store st) ≡ₚ omap (task_line cl) entries.
Proof.
  intros Hov Hrun Hkeys Hperm Hcl Hacc.
  destruct (sorted_resume_filter ∅ entries Hkeys) as (cases & Hsorted & Hcases).
  assert (cases ≡ₚ entries) as Hall.
  { rewrite Hcases. clear. induction entries as [|tc l IH]; [done|].
    rewrite filter_cons_True by set_solver. by f_equiv. }
  exists cases,
    (foldl (search_step cl) (SearchState (File [] accepts) [] 0)
       (as_completed cases)).
  destruct (search_loop_store cl (as_completed cases)
              (SearchState (File [] accepts) [] 0))
    as (new & Hw & _ & Hnew).
  cbn in Hw. rewrite (Hnew Hacc) in Hw. clear Hnew.
  split; [|split; [done|split; [|split; [|split; [done|]]]]].
  - unfold collect_test_cases. rewrite Hov, Hrun.
    destruct disk; cbn; f_equal; exact Hsorted.
  - unfold generate_search_results. by rewrite Hcl.
  - rewrite search_loop_pbar. cbn.
    transitivity (length cases); [by rewrite Hperm|by rewrite Hall].
  - rewrite Hw. transitivity (omap (task_line cl) cases).
    + by rewrite Hperm.
    + by rewrite Hall.
Qed.

End flags.


(** C5 — As stated, the claim fails: with the run-ids flag set and the
    overwrite flag not set, the named test case A, whose id is already in
    the result file, is not among the test cases to process. *)
Lemma run_ids_alone_skips_completed :
  ¬ (∀ (R : Runtime) (C : Collaborators) (a : args)
       (disk : option (list string)) (entries : list test_case),
       run_ids a = true →
       ∃ cases, (collect_test_cases a disk entries).2 = Ok cases ∧
                ∀ tc, tc ∈ entries → tc ∈ cases).
Proof.
  intros Hclaim.
  destruct (Hclaim (Sample.runtime (Some "supermemory") None)
              Sample.collaborators (Args [] true false 1)
              (Some ["A" +:+ newline]) [Sample.case "A" ["first"]] eq_refl)
    as (cases & Hcases & Hin).
  vm_compute in Hcases. injection Hcases as <-.
  specialize (Hin _ (list_elem_of_here _ _)). by apply elem_of_nil in Hin.
Qed.

(** ** First occurrences *)

Section first_occurrences.
Context `{EqDecision K} {A : Type} (key : A → K).

Lemma first_occurrences_from_start l :
  first_occurrences key l = first_occurrences_after key [] l.
Proof. done. Qed.

Lemma first_occurrences_after_nil before :
  first_occurrences_after key before [] = [].
Proof. done. Qed.

Lemma first_occurrences_after_cons before x l :
  first_occurrences_after key before (x :: l) =
    (if decide (key x ∈ key <$> before) then [] else [x]) ++
    first_occurrences_after key (before ++ [x]) l.
Proof.
  unfold first_occurrences_after. rewrite imap_cons. cbn [concat take].
  rewrite app_nil_r. f_equal. f_equal. apply imap_ext. intros i y _. cbn.
  by rewrite <-(assoc_L (++)).
Qed.

Lemma first_occurrences_after_app before l1 l2 :
  first_occurrences_after key before (l1 ++ l2) =
    first_occurrences_after key before l1 ++
    first_occurrences_after key (before ++ l1) l2.
Proof.
  revert before. induction l1 as [|x l1 IH]; intros before; cbn [app].
  - by rewrite app_nil_r.
  - rewrite !first_occurrences_after_cons, IH, <-!(assoc_L (++)). done.
Qed.

(** Only the keys of the earlier elements matter. *)
Lemma first_occurrences_after_ext before before' l :
  (∀ k, k ∈ key <$> before ↔ k ∈ key <$> before') →
  first_occurrences_after key before l = first_occurrences_after key before' l.
Proof.
  revert before before'. induction l as [|x l IH]; intros before before' Hk.
  - done.
  - rewrite !first_occurrences_after_cons. f_equal.
    + destruct (decide (key x ∈ key <$> before)) as [Hin|Hin];
        destruct (decide (key x ∈ key <$> before')) as [Hin'|Hin'];
        try done; by apply Hk in Hin || apply Hk in Hin'.
    + apply IH. intros k. rewrite !fmap_app, !elem_of_app, Hk. done.
Qed.

(** A later element whose key was already met contributes nothing, and
    the list without it has the same first occurrences. *)
Lemma first_occurrences_after_drop before l1 x l2 :
  key x ∈ key <$> before ++ l1 →
  first_occurrences_after key before (l1 ++ x :: l2) =
  first_occurrences_after key before (l1 ++ l2).
Proof.
  intros Hin. rewrite !first_occurrences_after_app.
  rewrite first_occurrences_after_cons, decide_True by done. cbn.
  f_equal. apply first_occurrences_after_ext. intros k.
  rewrite !fmap_app, !elem_of_app. cbn. rewrite list_elem_of_singleton.
  rewrite fmap_app, elem_of_app in Hin. split; [|tauto].
  intros [?| ->]; tauto.
Qed.

Lemma first_occurrences_after_sublist before l :
  first_occurrences_after key before l `sublist_of` l.
Proof.
  revert before. induction l as [|x l IH]; intros before; [done|].
  rewrite first_occurrences_after_cons. case_decide; cbn.
  - by apply sublist_cons.
  - by apply sublist_skip.
Qed.

(** Every element kept is the first with its key: it sits at a position
    before which its key does not occur. *)
Lemma first_occurrences_after_elem before l x :
  x ∈ first_occurrences_after key before l →
  ∃ l1 l2, l = l1 ++ x :: l2 ∧ key x ∉ key <$> before ++ l1.
Proof.
  revert before. induction l as [|y l IH]; intros before.
  - by intros ?%elem_of_nil.
  - rewrite first_occurrences_after_cons, elem_of_app.
    intros [Hin|Hin].
    + case_decide as Hy; [by apply elem_of_nil in Hin|].
      apply list_elem_of_singleton in Hin as ->.
      exists [], l. by rewrite app_nil_r.
    + destruct (IH _ Hin) as (l1 & l2 & -> & Hnot).
      exists (y :: l1), l2. split; [done|].
      by rewrite <-(assoc_L (++)) in Hnot.
Qed.

Lemma first_occurrences_after_NoDup before l :
  NoDup (key <$> first_occurrences_after key before l).
Proof.
  revert before. induction l as [|x l IH]; intros before.
  - constructor.
  - rewrite first_occurrences_after_cons. case_decide as Hx; cbn; [done|].
    constructor; [|done]. intros Hin.
    apply list_elem_of_fmap in Hin as (y & Hkey & Hy).
    apply first_occurrences_after_elem in Hy as (l1 & l2 & _ & Hnot).
    apply Hnot. rewrite <-Hkey, !fmap_app, !elem_of_app. cbn.
    left. right. by apply list_elem_of_here.
Qed.

(** Every key of the list is the key of an element kept, unless it was
    met before. *)
Lemma first_occurrences_after_covers before l x :
  x ∈ l →
  key x ∈ key <$> before ∨ key x ∈ key <$> first_occurrences_after key before l.
Proof.
  revert before. induction l as [|y l IH]; intros before.
  - by intros ?%elem_of_nil.
  - rewrite first_occurrences_after_cons, fmap_app, elem_of_app.
    intros [->|Hin]%elem_of_cons.
    + case_decide; [by left|]. right. left. cbn. by apply list_elem_of_here.
    + destruct (IH (before ++ [y]) Hin) as [Hb|Hb]; [|by right; right].
      rewrite fmap_app, elem_of_app in Hb. destruct Hb as [Hb|Hb]; [by left|].
      cbn in Hb. apply list_elem_of_singleton in Hb. rewrite Hb.
      case_decide; [by left|]. right. left. cbn. by apply list_elem_of_here.
Qed.

End first_occurrences.

(** ** Merging and deduplicating the memories of a test case *)

Section dedup.
Context {rt : Runtime} {co : Collaborators}.

Lemma comprehension_Forall2 {A B} (f : A → result B) l ys :
  comprehension f l = Ok ys ↔ Forall2 (λ x y, f x = Ok y) l ys.
Proof.
  revert ys. induction l as [|x l IH]; intros ys; cbn.
  - split; [intros [= <-]; constructor|by intros ->%Forall2_nil_inv_l].
  - destruct (f x) as [y|e] eqn:Hx; cbn.
    + destruct (comprehension f l) as [ys'|e] eqn:Hl; cbn.
      * split.
        -- intros [= <-]. constructor; [done|]. by apply IH.
        -- intros (y' & ys'' & Hy & Hys & ->)%Forall2_cons_inv_l.
           apply IH in Hys. congruence.
      * split; [done|].
        intros (y' & ys'' & Hy & Hys & ->)%Forall2_cons_inv_l.
        by apply IH in Hys.
    + split; [done|].
      intros (y' & ys'' & Hy & Hys & ->)%Forall2_cons_inv_l. congruence.
Qed.

(** The question loop concatenates what each question contributes, in
    question order. *)
Lemma search_loop_memories cl id top_k qs acc :
  (foldl (search_question cl id top_k) acc qs).1 =
    acc.1 ++ concat (question_memories cl id top_k <$> qs).
Proof.
  revert acc. induction qs as [|q qs IH]; intros acc; cbn.
  - by rewrite app_nil_r.
  - rewrite IH. unfold search_question, question_memories at 2.
    destruct (_ ← search_memory cl q id top_k; _); cbn.
    + by rewrite <-(assoc_L (++)).
    + done.
Qed.

Lemma search_all_memories cl id top_k qs :
  (search_all cl id top_k qs).1 =
    concat (question_memories cl id top_k <$> qs).
Proof. unfold search_all. by rewrite search_loop_memories. Qed.

Lemma dedup_step_normalized acc item d k :
  normalize item = Ok d → id_key d = Ok k →
  dedup_step acc item =
    Ok (if decide (k ∉ acc.1) then ({[k]} ∪ acc.1, acc.2 ++ [d]) else acc).
Proof.
  intros Hd Hk. unfold dedup_step. rewrite Hd. cbn. rewrite Hk. cbn.
  by case_decide.
Qed.

(** The loop over [mem_list], started after the memories [before] with
    their keys in [seen]. *)
Lemma dedup_loop_returns items ds before seen out :
  Forall2 (λ item d, normalize item = Ok d) items ds →
  Forall (λ d, is_ok (id_key d)) ds →
  (∀ k, k ∈ seen ↔ Ok k ∈ id_key <$> before) →
  ∃ seen',
    for_each dedup_step items (seen, out) =
      Ok (seen', out ++ first_occurrences_after id_key before ds).
Proof.
  intros Hnorm. revert before seen out.
  induction Hnorm as [|item d items ds Hitem _ IH];
    intros before seen out Hkeys Hseen.
  - exists seen. cbn. by rewrite app_nil_r.
  - apply Forall_cons in Hkeys as [Hd Hkeys].
    destruct (id_key d) as [k|] eqn:Hk; [|done].
    rewrite first_occurrences_after_cons. cbn [for_each].
    rewrite (dedup_step_normalized _ _ _ _ Hitem Hk). cbn [mbind result_bind fst snd].
    destruct (decide (k ∉ seen)) as [Hnew|Hold].
    + rewrite decide_False by (by rewrite Hk, <-Hseen).
      edestruct (IH (before ++ [d]) ({[k]} ∪ seen) (out ++ [d]) Hkeys)
        as [seen' ->].
      * intros k'. rewrite fmap_app, elem_of_app, <-Hseen. cbn.
        rewrite list_elem_of_singleton, Hk, elem_of_union, elem_of_singleton.
        split; [intros [->|?]; [by right|by left]|].
        intros [?|[= ->]]; [by right|by left].
      * exists seen'. by rewrite <-(assoc_L (++)).
    + apply dec_stable in Hold.
      rewrite decide_True by (by rewrite Hk, <-Hseen).
      edestruct (IH (before ++ [d]) seen out Hkeys) as [seen' ->].
      * intros k'. rewrite fmap_app, elem_of_app, <-Hseen. cbn.
        rewrite list_elem_of_singleton, Hk.
        split; [auto|]. intros [?|[= ->]]; done.
      * by exists seen'.
Qed.

(** When the loop returns, every item was normalized and its id hashed. *)
Lemma dedup_loop_returned items acc acc' :
  for_each dedup_step items acc = Ok acc' →
  ∃ ds, Forall2 (λ item d, normalize item = Ok d) items ds ∧
        Forall (λ d, is_ok (id_key d)) ds.
Proof.
  revert acc. induction items as [|item items IH]; intros acc; cbn.
  - exists []. split; constructor.
  - destruct (normalize item) as [d|] eqn:Hd;
      [|by unfold dedup_step; rewrite Hd].
    destruct (id_key d) as [k|] eqn:Hk;
      [|by unfold dedup_step; rewrite Hd; cbn; rewrite Hk].
    rewrite (dedup_step_normalized _ _ _ _ Hd Hk). cbn [mbind result_bind].
    intros Hrest.
    assert (∃ acc1, for_each dedup_step items acc1 = Ok acc') as [acc1 H1]
      by eauto.
    destruct (IH _ H1) as (ds & Hnorm & Hkeys).
    exists (d :: ds). split; constructor; try done. by rewrite Hk.
Qed.

(** [dedup] returns exactly the first occurrence of each id among the
    normalized memories. *)
Lemma dedup_returns items ds :
  Forall2 (λ item d, normalize item = Ok d) items ds →
  Forall (λ d, is_ok (id_key d)) ds →
  dedup items = Ok (first_occurrences id_key ds).
Proof.
  intros Hnorm Hkeys. unfold dedup.
  destruct (dedup_loop_returns items ds [] ∅ [] Hnorm Hkeys) as [seen' ->];
    [|done].
  intros k. cbn. rewrite elem_of_nil. set_solver.
Qed.

Lemma dedup_returned items out :
  dedup items = Ok out →
  ∃ ds, Forall2 (λ item d, normalize item = Ok d) items ds ∧
        Forall (λ d, is_ok (id_key d)) ds ∧
        out = first_occurrences id_key ds.
Proof.
  intros Hout.
  assert (∃ acc', for_each dedup_step items (∅, []) = Ok acc') as [acc' Hacc].
  { unfold dedup in Hout. destruct (for_each _ _ _); [eauto|done]. }
  destruct (dedup_loop_returned _ _ _ Hacc) as (ds & Hnorm & Hkeys).
  exists ds. split; [done|]. split; [done|].
  rewrite (dedup_returns items ds Hnorm Hkeys) in Hout. congruence.
Qed.

(** What [search_single_test_case] returns once [dedup] has returned. *)
Lemma search_single_after_dedup cl tc top_k ds :
  dedup (search_all cl (tc_id tc) top_k (all_questions tc)).1 = Ok ds →
  ∃ log ctx,
    search_single_test_case cl tc top_k =
      (log, Ok (SearchResult (tc_id tc) (all_questions tc) ds ctx)).
Proof.
  intros Hd. unfold search_single_test_case.
  destruct (search_all _ _ _ _) as [mem_list log]. cbn [fst] in Hd.
  rewrite Hd.
  destruct ds as [|d ds]; [by eexists _, _|].
  destruct (create_mem_context (d :: ds)); by eexists _, _.
Qed.

End dedup.

(** ** The memories of a test case *)

Section memories.
Context {rt : Runtime} {co : Collaborators}.

(** C2 — Dedup correctness.  The memories of a test case are the
    concatenation, in question order, of what the search for each question
    returned (a search that raised contributes nothing).  When every one of
    them normalizes to a dict whose id can be hashed,
    [search_single_test_case] returns a record whose memory list is the list
    of first occurrences: the memory at a position is kept exactly when no
    earlier position holds a memory with the same id.  That list keeps the
    concatenation order, holds no id twice, holds every id of the
    concatenation, and each of its memories is the first with its id. *)
Theorem dedup_keeps_first_occurrences
    (cl : client) (tc : test_case) (top_k : Z) (ds : list pydict) :
  let mem_list :=
    concat (question_memories cl (tc_id tc) top_k <$> all_questions tc) in
  comprehension normalize mem_list = Ok ds →
  Forall (λ d, is_ok (id_key d)) ds →
  (search_all cl (tc_id tc) top_k (all_questions tc)).1 = mem_list ∧
  (∃ log ctx,
     search_single_test_case cl tc top_k =
       (log, Ok (SearchResult (tc_id tc) (all_questions tc)
                   (first_occurrences id_key ds) ctx))) ∧
  first_occurrences id_key ds `sublist_of` ds ∧
  NoDup (id_key <$> first_occurrences id_key ds) ∧
  (∀ d, d ∈ ds → id_key d ∈ id_key <$> first_occurrences id_key ds) ∧
  (∀ d, d ∈ first_occurrences id_key ds →
        ∃ l1 l2, ds = l1 ++ d :: l2 ∧ id_key d ∉ id_key <$> l1).
Proof.
  intros mem_list Hnorm Hkeys. apply comprehension_Forall2 in Hnorm.
  pose proof (search_all_memories cl (tc_id tc) top_k (all_questions tc))
    as Hall. fold mem_list in Hall.
  split; [done|]. split; [|split; [|split; [|split]]].
  - apply search_single_after_dedup. rewrite Hall. by apply dedup_returns.
  - exact (first_occurrences_after_sublist id_key [] ds).
  - exact (first_occurrences_after_NoDup id_key [] ds).
  - intros d Hd.
    destruct (first_occurrences_after_covers id_key [] ds d Hd) as [Hin|Hin];
      [|done].
    by apply elem_of_nil in Hin.
  - intros d Hd. rewrite first_occurrences_from_start in Hd.
    by apply first_occurrences_after_elem in Hd.
Qed.

(** C7 — Context formatting fallback.  When the deduplicated memory list
    is not empty and [create_mem_context] raises on it,
    [search_single_test_case] still returns a record: it holds that list
    and the empty string as [mem_context], and the failure is written to
    the log with the id of the test case.  The main thread then treats the
    future as any other: if the file accepts the write the record's line is
    appended, no task error is logged, and the progress bar advances by
    one. *)
Theorem context_failure_keeps_the_memories
    (cl : client) (tc : test_case) (top_k : Z) (ds : list pydict) (e : exn)
    (st : search_state) :
  let found := search_all cl (tc_id tc) top_k (all_questions tc) in
  let record := SearchResult (tc_id tc) (all_questions tc) ds "" in
  dedup found.1 = Ok ds →
  ds ≠ [] →
  create_mem_context ds = Raise e →
  search_single_test_case cl tc top_k =
    (found.2 ++ [context_error_line (tc_id tc) e], Ok record) ∧
  (top_k = 10%Z →
   accepts (store st) (written (store st)) (result_line record) = true →
   search_step cl st tc =
     SearchState
       (File (written (store st) ++ [result_line record]) (accepts (store st)))
       (tqdm_log st ++ found.2 ++ [context_error_line (tc_id tc) e])
       (S (search_pbar st))).
Proof.
  intros found record Hd Hne Hctx.
  assert (search_single_test_case cl tc top_k =
            (found.2 ++ [context_error_line (tc_id tc) e], Ok record)) as Hs.
  { unfold search_single_test_case. fold found.
    destruct found as [mem_list log]. cbn [fst snd] in *. rewrite Hd.
    destruct ds as [|d ds]; [done|]. by rewrite Hctx. }
  split; [done|]. intros -> Hacc.
  unfold search_step. rewrite Hs. cbn [mbind result_bind].
  unfold file_write. by rewrite Hacc.
Qed.

(** C10 — Memories without an id.  An instance is normalized to its
    [__dict__], a dict is taken as it is, any other value goes through
    [dict(...)].  A memory without an [id] field has the key [None].  So
    when [dedup] returns, at most one memory without an id is in its
    result; one that is there is the first memory without an id of the
    concatenation; and a memory without an id that comes after another one
    is dropped: the result is the one obtained without it. *)
Theorem idless_memories_share_the_none_key
    (mem_list : list mem_item) (out : list pydict) :
  dedup mem_list = Ok out →
  (∀ attrs, normalize (MObj attrs) = Ok attrs) ∧
  (∀ d, normalize (MVal (PDict d)) = Ok d) ∧
  (∀ v, (∀ d, v ≠ PDict d) → normalize (MVal v) = py_dict v) ∧
  (∀ d, lacks_id d → id_key d = Ok KNone) ∧
  (∀ i j di dj, out !! i = Some di → out !! j = Some dj →
                lacks_id di → lacks_id dj → i = j) ∧
  (∀ d, d ∈ out → lacks_id d →
        ∃ pre item post,
          mem_list = pre ++ item :: post ∧ normalize item = Ok d ∧
          Forall (λ it, ∀ d', normalize it = Ok d' → ¬ lacks_id d') pre) ∧
  (∀ pre item post d,
     mem_list = pre ++ item :: post → normalize item = Ok d → lacks_id d →
     Exists (λ it, ∃ d', normalize it = Ok d' ∧ lacks_id d') pre →
     dedup (pre ++ post) = Ok out).
Proof.
  intros Hout.
  assert (∀ d, lacks_id d → id_key d = Ok KNone) as Hnone.
  { intros d Hd. unfold id_key, dict_get. by rewrite Hd. }
  destruct (dedup_returned _ _ Hout) as (ds & Hnorm & Hkeys & ->).
  split; [done|]. split; [done|]. split; [by intros [] Hv; try done; destruct (Hv d)|].
  split; [done|]. split; [|split].
  - intros i j di dj Hi Hj Hdi Hdj.
    eapply NoDup_lookup;
      [apply (first_occurrences_after_NoDup id_key [] ds)| |].
    + rewrite list_lookup_fmap. setoid_rewrite Hi. cbn.
      by rewrite (Hnone _ Hdi).
    + rewrite list_lookup_fmap. setoid_rewrite Hj. cbn.
      by rewrite (Hnone _ Hdj).
  - intros d Hd Hlacks. rewrite first_occurrences_from_start in Hd.
    apply first_occurrences_after_elem in Hd as (l1 & l2 & -> & Hfirst).
    apply Forall2_app_inv_r in Hnorm as (pre & rest & Hpre & Hrest & ->).
    apply Forall2_cons_inv_r in Hrest as (item & post & Hitem & _ & ->).
    exists pre, item, post. split; [done|]. split; [done|].
    apply Forall_forall. intros it Hit d' Hd' Hlacks'.
    apply list_elem_of_lookup in Hit as [i Hi].
    destruct (Forall2_lookup_l _ _ _ _ _ Hpre Hi) as (d'' & Hl1 & Hd'').
    assert (d'' = d') as -> by congruence.
    apply Hfirst. cbn. rewrite (Hnone _ Hlacks), <-(Hnone _ Hlacks').
    apply list_elem_of_fmap. exists d'. split; [done|].
    by eapply list_elem_of_lookup_2.
  - intros pre item post d -> Hitem Hlacks Hearlier.
    apply Forall2_app_inv_l in Hnorm as (dpre & drest & Hpre & Hrest & ->).
    apply Forall2_cons_inv_l in Hrest as (d1 & dpost & Hd1 & Hpost & ->).
    assert (d1 = d) as -> by congruence.
    rewrite first_occurrences_from_start, first_occurrences_after_drop.
    + apply dedup_returns; [by apply Forall2_app|].
      apply Forall_app in Hkeys as [Hk1 Hk2].
      apply Forall_cons in Hk2 as [_ Hk2]. by apply Forall_app.
    + cbn. apply Exists_exists in Hearlier as (it & Hit & d' & Hd' & Hl').
      apply list_elem_of_lookup in Hit as [i Hi].
      destruct (Forall2_lookup_l _ _ _ _ _ Hpre Hi) as (d'' & Hl1 & Hd'').
      assert (d'' = d') as -> by congruence.
      rewrite (Hnone _ Hlacks), <-(Hnone _ Hl').
      apply list_elem_of_fmap. exists d'. split; [done|].
      by eapply list_elem_of_lookup_2.
Qed.

End memories.

(** ** What reaches the backend *)

Section backend_calls.
Context {rt : Runtime} {co : Collaborators}.







End backend_calls.

(** * Runs of the sample world

    Each property above at a concrete run: futures complete in reverse
    submission order, and where a resume is shown the file already names A
    and B. *)

Lemma sort_keys_defined :
  Forall (λ tc, is_ok (sort_key (Collaborators := Sample.collaborators) tc))
    Sample.entries.
Proof. repeat constructor. Defined.


(** A, B and C with a backend that rejects B: two of three are counted,
    B is reported, and the ledger receives the lines of C and A. *)
Lemma failure_isolation_run :
  (∀ l : list conversation, reverse l ≡ₚ l) ∧
  report_total
    (@ingest_conversation Sample.mem0_v1 reverse Sample.data Sample.backend
       "mem0" 5 [] (Some (File [] Sample.reliable))) = 3%nat ∧
  report_completed
    (@ingest_conversation Sample.mem0_v1 reverse Sample.data Sample.backend
       "mem0" 5 [] (Some (File [] Sample.reliable))) = 2%nat ∧
  "Error processing conversation B: backend rejected B" ∈
    report_stdout
      (@ingest_conversation Sample.mem0_v1 reverse Sample.data Sample.backend
         "mem0" 5 [] (Some (File [] Sample.reliable))) ∧
  ∃ f', report_ledger
          (@ingest_conversation Sample.mem0_v1 reverse Sample.data
             Sample.backend "mem0" 5 [] (Some (File [] Sample.reliable)))
        = Some f' ∧
        written f' ≡ₚ ["A" +:+ newline; "C" +:+ newline].
Proof.
  split; [exact reverse_Permutation|].
  destruct (@failure_isolation_in_ingestion Sample.mem0_v1 reverse
              Sample.data Sample.backend "mem0" 5 []
              (File [] Sample.reliable) reverse_Permutation)
    as (Htotal & _ & Hcount & Hlog & f' & new & Hledger & Hwritten & _ & _
        & Hall).
  split; [exact Htotal|]. split; [exact Hcount|]. split.
  - apply (Hlog (Sample.conv "B" "world")
             (Exn BackendError "backend rejected B")).
    + apply list_elem_of_further, list_elem_of_here.
    + reflexivity.
  - exists f'. split; [exact Hledger|].
    rewrite Hwritten. exact (Hall (λ _ _, eq_refl)).
Defined.


(** The id file names A and B, and A is already in the result file.  With
    the run-ids flag alone only B is collected; with both flags A and B
    are, and the file still starts with the line of A afterwards. *)
Lemma run_ids_run :
  (∃ cases,
     @collect_test_cases Sample.supermemory Sample.collaborators
       (Args [] true false 10) (Some ["A" +:+ newline])
       [Sample.case "A" ["first"]; Sample.case "B" ["second"]]
     = (Some ["A" +:+ newline], Ok cases) ∧
     cases ≡ₚ [Sample.case "B" ["second"]]) ∧
  (∃ cases,
     @collect_test_cases Sample.supermemory Sample.collaborators
       (Args [] true true 10) (Some ["A" +:+ newline])
       [Sample.case "A" ["first"]; Sample.case "B" ["second"]]
     = (Some ["A" +:+ newline], Ok cases) ∧
     cases ≡ₚ [Sample.case "A" ["first"]; Sample.case "B" ["second"]]) ∧
  ((@main Sample.supermemory Sample.collaborators reverse
      (Args [] true true 10) (Some ["A" +:+ newline]) Sample.reliable).1
   = Some ["A" +:+ newline] ∨
   ∃ new,
     (@main Sample.supermemory Sample.collaborators reverse
        (Args [] true true 10) (Some ["A" +:+ newline]) Sample.reliable).1
     = Some (["A" +:+ newline] ++ new)).
Proof.
  assert (Forall (λ tc, is_ok (sort_key (Collaborators := Sample.collaborators)
                                 tc))
            [Sample.case "A" ["first"]; Sample.case "B" ["second"]]) as Hkeys
    by repeat constructor.
  destruct (@run_ids_needs_overwrite_to_bypass Sample.supermemory
              Sample.collaborators (Args [] true false 10)
              (Some ["A" +:+ newline])
              [Sample.case "A" ["first"]; Sample.case "B" ["second"]]
              reverse Sample.reliable eq_refl Hkeys)
    as (_ & Hskip & _).
  destruct (@run_ids_needs_overwrite_to_bypass Sample.supermemory
              Sample.collaborators (Args [] true true 10)
              (Some ["A" +:+ newline])
              [Sample.case "A" ["first"]; Sample.case "B" ["second"]]
              reverse Sample.reliable eq_refl Hkeys)
    as (Hall & _ & Hmain).
  split; [|split].
  - exact (Hskip eq_refl ({[KStr "A"]} ∪ ∅) eq_refl).
  - exact (Hall eq_refl).
  - exact Hmain.
Defined.

(** Overwrite with A already in the result file: the file is gone after
    [collect_test_cases], all of C, A and B are collected, and the run
    writes a line for each of them. *)
Lemma overwrite_run :
  @get_client Sample.supermemory Sample.collaborators = Ok Sample.backend ∧
  ∃ cases st,
    @collect_test_cases Sample.supermemory Sample.collaborators
      (Args [] false true 10) (Some ["A" +:+ newline]) Sample.entries
    = (None, Ok cases) ∧
    cases ≡ₚ Sample.entries ∧
    @generate_search_results Sample.supermemory Sample.collaborators reverse
      None Sample.reliable cases = Ok st ∧
    search_pbar st = 3%nat ∧
    written (store st) ≡ₚ ["C" +:+ newline; "A" +:+ newline; "B" +:+ newline].
Proof.
  split; [reflexivity|].
  destruct (@overwrite_clears_and_reprocesses Sample.supermemory
              Sample.collaborators (Args [] false true 10)
              (Some ["A" +:+ newline]) Sample.entries reverse Sample.reliable
              Sample.backend eq_refl eq_refl sort_keys_defined
              reverse_Permutation eq_refl (λ _ _, eq_refl))
    as (cases & st & Hcollect & Hperm & Hrun & Hbar & _ & Hlines).
  exists cases, st. split; [exact Hcollect|]. split; [exact Hperm|].
  split; [exact Hrun|]. split; [exact Hbar|exact Hlines].
Defined.

(** The questions "first" and "second" find the memories 1, 2 and 2, 3;
    the record holds 1, 2, 3. *)
Lemma dedup_run :
  comprehension (@normalize Sample.supermemory)
    (concat (@question_memories Sample.supermemory Sample.backend "T" 10
               <$> ["first"; "second"]))
  = Ok [Sample.mem 1; Sample.mem 2; Sample.mem 2; Sample.mem 3] ∧
  ∃ log ctx,
    @search_single_test_case Sample.supermemory Sample.backend
      (Sample.case "T" ["first"; "second"]) 10
    = (log, Ok (SearchResult "T" ["first"; "second"]
                  [Sample.mem 1; Sample.mem 2; Sample.mem 3] ctx)).
Proof.
  split; [reflexivity|].
  destruct (@dedup_keeps_first_occurrences Sample.supermemory Sample.backend
              (Sample.case "T" ["first"; "second"]) 10
              [Sample.mem 1; Sample.mem 2; Sample.mem 2; Sample.mem 3]
              eq_refl ltac:(repeat constructor))
    as (_ & Hrecord & _).
  exact Hrecord.
Defined.

(** The memory found for "untitled" has no text, so the context cannot be
    built: the record still holds the memory, with an empty context, and
    its line is written. *)
Lemma context_failure_run :
  @create_mem_context Sample.supermemory [[("id", PInt 7)]]
  = Raise (Exn KeyError "memory") ∧
  @search_single_test_case Sample.supermemory Sample.backend
    (Sample.case "T" ["untitled"]) 10
  = (["Error creating memory context for test case T: memory"],
     Ok Sample.record_untitled) ∧
  written
    (store (@search_step Sample.supermemory Sample.backend
              (SearchState (File [] Sample.reliable) [] 0)
              (Sample.case "T" ["untitled"])))
  = ["T" +:+ newline].
Proof.
  split; [reflexivity|].
  destruct (@context_failure_keeps_the_memories Sample.supermemory
              Sample.backend (Sample.case "T" ["untitled"]) 10
              [[("id", PInt 7)]] (Exn KeyError "memory")
              (SearchState (File [] Sample.reliable) [] 0)
              eq_refl ltac:(discriminate) eq_refl)
    as (Hrecord & Hstep).
  split; [exact Hrecord|]. rewrite (Hstep eq_refl eq_refl). reflexivity.
Defined.

(** Of the memories "x", 1 and "y" found for "notes", the two without an
    id share a key: "x" stays, "y" is dropped, and the result is the one
    for "x" and 1 alone. *)
Lemma idless_run :
  @dedup Sample.supermemory
    [MObj (Sample.anon "x"); MObj (Sample.mem 1); MObj (Sample.anon "y")]
  = Ok [Sample.anon "x"; Sample.mem 1] ∧
  @dedup Sample.supermemory
    ([MObj (Sample.anon "x"); MObj (Sample.mem 1)] ++ [])
  = Ok [Sample.anon "x"; Sample.mem 1].
Proof.
  split; [reflexivity|].
  destruct (@idless_memories_share_the_none_key Sample.supermemory
              [MObj (Sample.anon "x"); MObj (Sample.mem 1);
               MObj (Sample.anon "y")]
              [Sample.anon "x"; Sample.mem 1] eq_refl)
    as (_ & _ & _ & _ & _ & _ & Hdrop).
  apply (Hdrop [MObj (Sample.anon "x"); MObj (Sample.mem 1)]
           (MObj (Sample.anon "y")) [] (Sample.anon "y") eq_refl eq_refl
           eq_refl).
  apply Exists_cons_hd. exists (Sample.anon "x"). split; reflexivity.
Defined.



(** * Further properties

    Properties of the code around the claims: loading, the ledger and the
    result file across runs, the search path when searches fail, and the
    order in which [main] does its work. *)

(** ** Stripping *)

Lemma string_app_nil_r (s : string) : s +:+ "" = s.
Proof.
  induction s as [|c s IH]; [done|].
  change (String c (s +:+ "") = String c s). by rewrite IH.
Qed.

Lemma string_app_assoc (s t u : string) : (s +:+ t) +:+ u = s +:+ t +:+ u.
Proof.
  induction s as [|c s IH]; [done|].
  change (String c ((s +:+ t) +:+ u) = String c (s +:+ t +:+ u)).
  by rewrite IH.
Qed.

Lemma string_rev_app_spec (s t : string) :
  String.rev_app s t = String.rev s +:+ t.
Proof.
  revert t. induction s as [|c s IH]; intros t; [done|].
  unfold String.rev. cbn [String.rev_app].
  rewrite (IH (String c t)), (IH (String c "")), string_app_assoc. done.
Qed.

Lemma string_rev_cons c s :
  String.rev (String c s) = String.rev s +:+ String c "".
Proof. unfold String.rev at 1. cbn. apply string_rev_app_spec. Qed.

Lemma string_rev_app (s t : string) :
  String.rev (s +:+ t) = String.rev t +:+ String.rev s.
Proof.
  induction s as [|c s IH]; [by rewrite string_app_nil_r|].
  change (String.rev (String c (s +:+ t)) =
            String.rev t +:+ String.rev (String c s)).
  by rewrite !string_rev_cons, IH, string_app_assoc.
Qed.

Lemma string_rev_involutive (s : string) : String.rev (String.rev s) = s.
Proof.
  induction s as [|c s IH]; [done|].
  rewrite string_rev_cons, string_rev_app, IH. done.
Qed.

Lemma lstrip_length s : (String.length (lstrip s) ≤ String.length s)%nat.
Proof.
  induction s as [|c s IH]; cbn; [done|].
  destruct (py_isspace c); cbn; lia.
Qed.

Lemma lstrip_idem s : lstrip (lstrip s) = lstrip s.
Proof.
  induction s as [|c s IH]; cbn; [done|].
  destruct (py_isspace c) eqn:Hc; [done|]. cbn. by rewrite Hc.
Qed.

(** What [lstrip] removes is a prefix of spaces. *)
Lemma lstrip_split s : ∃ w, s = w +:+ lstrip s ∧ lstrip w = "".
Proof.
  induction s as [|c s (w & Hs & Hw)]; cbn; [by exists ""|].
  destruct (py_isspace c) eqn:Hc.
  - exists (String c w). split.
    + change (String c s = String c (w +:+ lstrip s)). by rewrite <-Hs.
    + cbn. by rewrite Hc.
  - by exists "".
Qed.


(** A string that does not start with a space keeps its start when spaces
    are taken from its end. *)
Lemma lstrip_rstrip t : lstrip t = t → lstrip (rstrip t) = rstrip t.
Proof.
  intros Ht. unfold rstrip.
  destruct (lstrip_split (String.rev t)) as (w & Hsplit & _).
  apply (f_equal String.rev) in Hsplit.
  rewrite string_rev_involutive, string_rev_app in Hsplit.
  destruct (String.rev (lstrip (String.rev t))) as [|c r]; [done|].
  cbn. destruct (py_isspace c) eqn:Hc; [|done]. exfalso.
  rewrite Hsplit in Ht.
  change (lstrip (String c (r +:+ String.rev w)) =
            String c (r +:+ String.rev w)) in Ht.
  cbn [lstrip] in Ht. rewrite Hc in Ht.
  pose proof (lstrip_length (r +:+ String.rev w)) as Hlen.
  rewrite Ht in Hlen. cbn in Hlen. lia.
Qed.

Lemma rstrip_idem t : rstrip (rstrip t) = rstrip t.
Proof. unfold rstrip. by rewrite string_rev_involutive, lstrip_idem. Qed.

Lemma strip_idem s : strip (strip s) = strip s.
Proof.
  change (rstrip (lstrip (rstrip (lstrip s))) = rstrip (lstrip s)).
  rewrite (lstrip_rstrip (lstrip s)) by apply lstrip_idem.
  apply rstrip_idem.
Qed.


(** ** The ledger across runs *)

Section ledger.
Context {rt : Runtime} {co : Collaborators}.

Lemma load_success_records_default record_file :
  load_success_records record_file = strip <$> default [] record_file.
Proof. by destruct record_file. Qed.


(** X2 — An identifier with surrounding whitespace is never recognised
    as done: the ledger is read back with [strip], so no line of it equals
    such an identifier, and the conversation is submitted in every run,
    whatever the ledger holds. *)
Theorem unstripped_id_is_always_resubmitted
    (data : list conversation) (record_file : option (list string))
    (c : conversation) :
  c ∈ data →
  strip (sample_id c) ≠ sample_id c →
  c ∈ submitted data (load_success_records record_file).
Proof.
  intros Hc Hid. unfold submitted. apply list_elem_of_filter.
  split; [|done]. rewrite load_success_records_default.
  intros (line & Hline & _)%list_elem_of_fmap. apply Hid.
  by rewrite Hline, strip_idem.
Qed.

(** X3 — A backend name that [process_single_conversation] does not know
    fails every conversation: whatever the completion order, none is
    counted, each is reported with its identifier, all are handled, and the
    ledger is left as it was. *)
Theorem unknown_frame_ingests_nothing
    (order : list conversation → list conversation)
    (data : list conversation) (cl : client) (frame : string) (workers : Z)
    (success_records : list string) (f : file) :
  (∀ l, order l ≡ₚ l) →
  frame ∉ valid_frames →
  report_completed
    (ingest_conversation order data cl frame workers success_records (Some f))
  = 0%nat ∧
  report_pbar
    (ingest_conversation order data cl frame workers success_records (Some f))
  = length (submitted data success_records) ∧
  report_ledger
    (ingest_conversation order data cl frame workers success_records (Some f))
  = Some f ∧
  ∀ c, c ∈ submitted data success_records →
       "Error processing conversation " +:+ sample_id c +:+ ": "
         +:+ "Invalid frame: " +:+ frame
       ∈ report_stdout
           (ingest_conversation order data cl frame workers success_records
              (Some f)).
Proof.
  intros Hperm Hframe.
  assert (∀ c, process_single_conversation c cl frame =
               Raise (Exn ValueError ("Invalid frame: " +:+ frame))) as Hfail.
  { intros c. unfold process_single_conversation, add_call_of.
    unfold valid_frames in Hframe.
    repeat (case_decide; [subst frame; exfalso; apply Hframe;
                          repeat constructor|]).
    done. }
  set (outcome := λ c, process_single_conversation c cl frame).
  assert (∀ l, filter (succeeded outcome) l = []) as Hnone.
  { intros l. induction l as [|c l IH]; [done|].
    rewrite filter_cons_False; [done|].
    intros Hs. unfold succeeded, outcome in Hs. by rewrite Hfail in Hs. }
  unfold ingest_conversation.
  cbn [report_completed report_pbar report_ledger report_stdout].
  fold outcome. split; [|split; [|split]].
  - by rewrite ingest_loop_count, Hnone.
  - rewrite ingest_loop_pbar. cbn. by rewrite Hperm.
  - match goal with
    | |- context [foldl _ ?st _] =>
        destruct (ingest_loop_ledger outcome
                    (order (submitted data success_records)) st f eq_refl)
          as (f' & new & -> & Hacc & Hw & Hsub & _)
    end.
    rewrite Hnone in Hsub. apply sublist_nil_r in Hsub. subst new.
    rewrite app_nil_r in Hw. f_equal. destruct f, f'. cbn in *. congruence.
  - intros c Hc. apply elem_of_app. left.
    apply (ingest_loop_logs_failure outcome _ _ c
             (Exn ValueError ("Invalid frame: " +:+ frame)));
      [by rewrite Hperm|apply Hfail].
Qed.

End ledger.

(** ** Loading *)

Section load.
Context {rt : Runtime}.

Lemma load_line_loadable name acc numbered :
  loadable numbered.2 →
  ∃ more,
    load_line name acc numbered =
      Ok (acc.1 ++ option_list (line_record numbered.2), acc.2 ++ more).
Proof.
  unfold loadable, load_line, line_record. intros Hline.
  case_decide as Hblank.
  - exists []. cbn. rewrite !app_nil_r. by destruct acc.
  - destruct Hline as [?|Hline]; [done|].
    destruct (json_loads (strip numbered.2)) as [obj|e].
    + exists []. cbn. by rewrite app_nil_r.
    + rewrite decide_True by done. eexists. cbn. by rewrite app_nil_r.
Qed.

Lemma load_lines_loadable name i lines acc :
  Forall loadable lines →
  ∃ more,
    for_each (load_line name) (enumerate i lines) acc =
      Ok (acc.1 ++ omap line_record lines, acc.2 ++ more).
Proof.
  intros Hlines. revert i acc.
  induction Hlines as [|line lines Hline _ IH]; intros i acc.
  - exists []. cbn. rewrite !app_nil_r. by destruct acc.
  - cbn [enumerate for_each].
    destruct (load_line_loadable name acc (i, line) Hline) as [more1 H1].
    cbn [fst snd] in H1. rewrite H1. cbn [mbind result_bind].
    destruct (IH (S i) (acc.1 ++ option_list (line_record line),
                        acc.2 ++ more1)) as [more2 ->].
    exists (more1 ++ more2). cbn [fst snd].
    rewrite <-!(assoc_L (++)). cbn. by destruct (line_record line).
Qed.

Lemma load_files_loadable (files : list (string * list string)) acc :
  Forall (λ file, Forall loadable file.2) files →
  ∃ more,
    for_each load_file files acc =
      Ok (acc.1 ++ concat (file_records <$> files),
          acc.2 ++ more).
Proof.
  intros Hfiles. revert acc.
  induction Hfiles as [|file files Hfile _ IH]; intros acc.
  - exists []. cbn. rewrite !app_nil_r. by destruct acc.
  - assert (∃ more1, load_file acc file =
                       Ok (acc.1 ++ file_records file, acc.2 ++ more1))
      as [more1 H1].
    { unfold load_file.
      destruct (load_lines_loadable file.1 1 file.2
                  (acc.1, acc.2 ++ ["Loading " +:+ file.1 +:+ "..."]) Hfile)
        as [more1 ->].
      eexists. cbn [fst snd]. by rewrite <-(assoc_L (++)). }
    change (for_each load_file (file :: files) acc)
      with (load_file acc file ≫= for_each load_file files).
    rewrite H1. cbn [mbind result_bind].
    destruct (IH (acc.1 ++ file_records file, acc.2 ++ more1)) as [more2 ->].
    exists (more1 ++ more2). cbn [fst snd fmap list_fmap concat].
    by rewrite <-!(assoc_L (++)).
Qed.

(** X4 — Loading skips what it cannot read.  When every line of the
    [.jsonl] files is blank, decodes, or fails to decode with a
    [JSONDecodeError], [load_data] returns: its records are those of the
    lines that decode, in the order of the files and of the lines within
    each file; files with another name are not opened; and its last line
    of output counts the records returned. *)
Theorem load_data_skips_unreadable_lines
    (files : list (string * list string)) (data_dir : string) :
  Forall (λ file, is_jsonl file.1 → Forall loadable file.2) files →
  ∃ out,
    load_data (Some files) data_dir =
      Ok (concat (file_records
                    <$> filter (λ file, is_jsonl file.1) files),
          out) ∧
    (filter (λ file, is_jsonl file.1) files ≠ [] →
     last out =
       Some ("Loaded "
               +:+ pretty (length (concat (file_records
                              <$> filter (λ file, is_jsonl file.1) files)))
               +:+ " records from "
               +:+ pretty (length (filter (λ file, is_jsonl file.1) files))
               +:+ " files")).
Proof.
  intros Hfiles. unfold load_data.
  assert (Forall (λ file, Forall loadable file.2)
            (filter (λ file, is_jsonl file.1) files)) as Hjsonl.
  { apply Forall_forall. intros file [Hname Hin]%list_elem_of_filter.
    eapply Forall_forall in Hfiles; [|done]. by apply Hfiles. }
  destruct (filter (λ file, is_jsonl file.1) files) as [|file jsonl] eqn:Hf.
  - eexists. split; [done|]. done.
  - destruct (load_files_loadable (file :: jsonl) ([], []) Hjsonl)
      as [more ->].
    cbn [mbind result_bind fst snd app]. eexists. split; [done|].
    intros _. by rewrite last_snoc.
Qed.

End load.

(** ** The search path when searches fail or return too much *)

Section search_failures.
Context {rt : Runtime} {co : Collaborators}.

(** A comprehension with a condition returns, in order, exactly the
    elements on which the condition holds. *)
Lemma filter_raising_spec {A} (cond : A → result bool) l kept :
  filter_raising cond l = Ok kept →
  kept `sublist_of` l ∧
  Forall (λ x, cond x = Ok true) kept ∧
  ∀ x, x ∈ l → cond x = Ok true → x ∈ kept.
Proof.
  revert kept. induction l as [|x l IH]; intros kept; cbn.
  - intros [= <-]. split; [done|]. split; [constructor|].
    by intros x ?%elem_of_nil.
  - destruct (cond x) as [b|] eqn:Hx; [|done]. cbn.
    destruct (filter_raising cond l) as [rest|]; [|done]. cbn.
    intros [= <-]. destruct (IH rest eq_refl) as (Hsub & Hall & Hin).
    destruct b.
    + split; [by constructor|]. split; [by constructor|].
      intros y [->|Hy]%elem_of_cons Hcond; [apply list_elem_of_here|].
      apply list_elem_of_further. by apply Hin.
    + split; [by apply sublist_cons|]. split; [done|].
      intros y [->|Hy]%elem_of_cons Hcond; [congruence|]. by apply Hin.
Qed.

Lemma is_tool_trajectory_true v :
  is_tool_trajectory v = true ↔ v = PStr "ToolTrajectoryMemory".
Proof.
  destruct v as [|z|s|l|d]; cbn; try (split; [done|discriminate]).
  rewrite bool_decide_eq_true. split; [by intros ->|by intros [= ->]].
Qed.

(** X5 — Under "memos-api", [search_memory] returns only memories whose
    [metadata.memory_type] is "ToolTrajectoryMemory": they are taken, in
    order, from the list under [tool_mem[0].memories] of the response,
    every memory of that type in the list is among them, and no other. *)
Theorem memos_api_keeps_only_tool_trajectories
    (cl : client) (query test_entry_id : string) (top_k : Z)
    (found : memories) :
  getenv "FRAME" = Some "memos-api" →
  search_memory cl query test_entry_id top_k = Ok found →
  ∃ rsps tool_mem first mems all kept,
    client_search cl query (search_user_id test_entry_id) top_k
      = Ok (RespVal rsps) ∧
    py_getitem rsps "tool_mem" = Ok tool_mem ∧
    py_first tool_mem = Ok first ∧
    py_getitem first "memories" = Ok mems ∧
    py_iter mems = Ok all ∧
    found = MemItems (MVal <$> kept) ∧
    kept `sublist_of` all ∧
    ∀ mem, mem ∈ kept ↔
           mem ∈ all ∧
           ∃ metadata,
             py_getitem mem "metadata" = Ok metadata ∧
             py_getitem metadata "memory_type"
               = Ok (PStr "ToolTrajectoryMemory").
Proof.
  intros Hframe. unfold search_memory. rewrite Hframe.
  destruct (client_search cl query _ top_k) as [[rsps|objs]|] eqn:Hrsps;
    [| |done];
    cbn [mbind result_bind]; rewrite decide_True by done; [|done].
  destruct (py_getitem rsps "tool_mem") as [tool_mem|] eqn:H1; [|done].
  cbn [mbind result_bind].
  destruct (py_first tool_mem) as [first|] eqn:H2; [|done].
  cbn [mbind result_bind].
  destruct (py_getitem first "memories") as [mems|] eqn:H3; [|done].
  cbn [mbind result_bind].
  destruct (py_iter mems) as [all|] eqn:H4; [|done]. cbn [mbind result_bind].
  destruct (filter_raising _ all) as [kept|] eqn:Hkept; [|done].
  cbn [mbind result_bind].
  intros [= <-]. exists rsps, tool_mem, first, mems, all, kept.
  do 6 (split; [done|]).
  apply filter_raising_spec in Hkept as (Hsub & Hall & Hin).
  split; [done|]. intros mem. split.
  - intros Hmem. split; [by eapply sublist_subseteq|].
    eapply Forall_forall in Hall; [|done]. cbn beta in Hall.
    destruct (py_getitem mem "metadata") as [metadata|] eqn:Hmd; [|done].
    cbn [mbind result_bind] in Hall.
    destruct (py_getitem metadata "memory_type") as [mt|] eqn:Hmt; [|done].
    cbn [mbind result_bind] in Hall. injection Hall as Htool.
    apply is_tool_trajectory_true in Htool as ->. by exists metadata.
  - intros (Hmem & metadata & Hmd & Hmt). apply Hin; [done|].
    rewrite Hmd. cbn [mbind result_bind]. by rewrite Hmt.
Qed.

(** The question loop when every search fails. *)
Lemma search_loop_all_fail cl id top_k qs acc :
  Forall (λ q, ¬ is_ok (found ← search_memory cl q id top_k; iterate found))
         qs →
  ∃ lines,
    foldl (search_question cl id top_k) acc qs = (acc.1, acc.2 ++ lines) ∧
    length lines = length qs.
Proof.
  intros Hqs. revert acc.
  induction Hqs as [|q qs Hq _ IH]; intros acc; cbn [foldl].
  - exists []. rewrite app_nil_r. by destruct acc.
  - unfold search_question at 2.
    destruct (_ ← search_memory cl q id top_k; _) as [?|e]; [by destruct Hq|].
    destruct (IH (acc.1, acc.2 ++ [search_error_line id q e]))
      as (lines & -> & Hlen).
    exists (search_error_line id q e :: lines). cbn [fst snd].
    split; [by rewrite <-(assoc_L (++))|]. cbn. by rewrite Hlen.
Qed.

Lemma search_single_all_fail cl tc top_k :
  Forall (λ q, ¬ is_ok (found ← search_memory cl q (tc_id tc) top_k;
                        iterate found))
         (all_questions tc) →
  ∃ log,
    search_single_test_case cl tc top_k =
      (log, Ok (SearchResult (tc_id tc) (all_questions tc) [] "")) ∧
    length log = length (all_questions tc).
Proof.
  intros Hqs. unfold search_single_test_case, search_all.
  destruct (search_loop_all_fail cl (tc_id tc) top_k _ ([], []) Hqs)
    as (lines & -> & Hlen).
  cbn. by exists lines.
Qed.

(** X6 — A test case whose searches all fail still yields a record: one
    without memories and with an empty context, after one error line per
    question.  The main thread writes its line like any other, so the
    test case counts as done for the runs that follow. *)
Theorem failed_searches_give_an_empty_record
    (cl : client) (tc : test_case) (st : search_state) :
  Forall (λ q, ¬ is_ok (found ← search_memory cl q (tc_id tc) 10;
                        iterate found))
         (all_questions tc) →
  accepts (store st) (written (store st))
    (result_line (SearchResult (tc_id tc) (all_questions tc) [] "")) = true →
  ∃ log,
    search_single_test_case cl tc 10 =
      (log, Ok (SearchResult (tc_id tc) (all_questions tc) [] "")) ∧
    length log = length (all_questions tc) ∧
    written (store (search_step cl st tc)) =
      written (store st) ++
        [result_line (SearchResult (tc_id tc) (all_questions tc) [] "")].
Proof.
  intros Hqs Hacc.
  destruct (search_single_all_fail cl tc 10 Hqs) as (log & Hs & Hlen).
  exists log. split; [done|]. split; [done|].
  unfold search_step. rewrite Hs. cbn [mbind result_bind].
  unfold file_write. by rewrite Hacc.
Qed.

(** X7 — Backends the search script cannot read.  [get_client] accepts
    six backend names, but [search_memory] knows how to read the response
    of three only.  Under any other name (among them "memobase",
    "memos-api-online" and "memu") every search raises, whatever the client
    answers, and every test case gets a record without memories. *)
Theorem unread_backends_find_nothing
    (frame : string) (cl : client) (tc : test_case) (top_k : Z) :
  getenv "FRAME" = Some frame →
  frame ∉ ["memos-api"; "mem0"; "supermemory"] →
  (∀ q id, ¬ is_ok (search_memory cl q id top_k)) ∧
  ∃ log,
    search_single_test_case cl tc top_k =
      (log, Ok (SearchResult (tc_id tc) (all_questions tc) [] "")) ∧
    length log = length (all_questions tc).
Proof.
  intros Hframe Hnot.
  assert (∀ q id, ¬ is_ok (search_memory cl q id top_k)) as Hfail.
  { intros q id. unfold search_memory. rewrite Hframe.
    destruct (client_search cl q _ top_k) as [rsps|]; [|by intros []].
    cbn [mbind result_bind].
    repeat (case_decide as Hf; [injection Hf as ->; exfalso; apply Hnot;
                                repeat constructor|clear Hf]).
    by intros []. }
  split; [done|]. apply search_single_all_fail.
  apply Forall_forall. intros q _ Hok. apply (Hfail q (tc_id tc)).
  by destruct (search_memory cl q (tc_id tc) top_k).
Qed.

End search_failures.

(** ** More on deduplication *)

Section first_occurrences_more.
Context `{EqDecision K} {A : Type} (key : A → K).

(** A list without repeated keys, none of them met before, is its own
    list of first occurrences. *)
Lemma first_occurrences_after_distinct before l :
  (∀ x, x ∈ l → key x ∉ key <$> before) →
  NoDup (key <$> l) →
  first_occurrences_after key before l = l.
Proof.
  revert before. induction l as [|x l IH]; intros before Hfresh Hnd; [done|].
  rewrite first_occurrences_after_cons.
  rewrite decide_False by (apply Hfresh, list_elem_of_here).
  cbn. f_equal. apply NoDup_cons in Hnd as [Hx Hnd]. apply IH; [|done].
  intros y Hy. rewrite fmap_app, elem_of_app. intros [Hin|Hin].
  - by apply (Hfresh y); [apply list_elem_of_further|].
  - cbn in Hin. apply list_elem_of_singleton in Hin. apply Hx.
    rewrite <-Hin. apply list_elem_of_fmap. by exists y.
Qed.

Lemma first_occurrences_after_length before l :
  (length (first_occurrences_after key before l) ≤ length l)%nat.
Proof. apply sublist_length, first_occurrences_after_sublist. Qed.

End first_occurrences_more.

Section dedup_more.
Context {rt : Runtime} {co : Collaborators}.

Lemma normalized_exists (items : list mem_item) :
  Forall (λ item, ∃ d, normalize item = Ok d ∧ is_ok (id_key d)) items →
  ∃ ds, Forall2 (λ item d, normalize item = Ok d) items ds ∧
        Forall (λ d, is_ok (id_key d)) ds.
Proof.
  induction 1 as [|item items (d & Hd & Hk) _ (ds & Hds & Hks)].
  - exists []. split; constructor.
  - exists (d :: ds). split; by constructor.
Qed.

(** X8 — When deduplication fails.  [search_single_test_case] returns a
    record exactly when every memory found can be normalized to a dict and
    has an id that can be hashed ([None], a number or a string); one memory
    with a list or a dict as id makes the whole test case raise, and then
    the main thread writes no line for it. *)
Theorem record_iff_every_memory_has_a_key
    (cl : client) (tc : test_case) (top_k : Z) :
  (is_ok (search_single_test_case cl tc top_k).2 ↔
   Forall (λ item, ∃ d, normalize item = Ok d ∧ is_ok (id_key d))
          (search_all cl (tc_id tc) top_k (all_questions tc)).1) ∧
  (∀ item d l,
     item ∈ (search_all cl (tc_id tc) top_k (all_questions tc)).1 →
     normalize item = Ok d →
     dict_lookup d "id" = Some (PList l) ∨ (∃ d', dict_lookup d "id" = Some (PDict d')) →
     ¬ is_ok (search_single_test_case cl tc top_k).2) ∧
  (top_k = 10%Z →
   ¬ is_ok (search_single_test_case cl tc top_k).2 →
   ∀ st, store (search_step cl st tc) = store st).
Proof.
  assert (is_ok (search_single_test_case cl tc top_k).2 ↔
          is_ok (dedup (search_all cl (tc_id tc) top_k (all_questions tc)).1))
    as Hdedup.
  { unfold search_single_test_case.
    destruct (search_all _ _ _ _) as [mem_list log]. cbn [fst].
    destruct (dedup mem_list) as [[|d ds]|]; [done| |done].
    by destruct (create_mem_context (d :: ds)). }
  assert (is_ok (search_single_test_case cl tc top_k).2 ↔
          Forall (λ item, ∃ d, normalize item = Ok d ∧ is_ok (id_key d))
            (search_all cl (tc_id tc) top_k (all_questions tc)).1) as Hiff.
  { rewrite Hdedup. split.
    - destruct (dedup _) as [out|] eqn:Hout; [|done]. intros _.
      destruct (dedup_returned _ _ Hout) as (ds & Hnorm & Hkeys & _).
      clear Hout. induction Hnorm as [|item d items ds Hd _ IH];
        [constructor|].
      apply Forall_cons in Hkeys as [Hk Hkeys]. constructor; [|by apply IH].
      by exists d.
    - intros Hall. destruct (normalized_exists _ Hall) as (ds & Hnorm & Hkeys).
      by rewrite (dedup_returns _ _ Hnorm Hkeys). }
  split; [done|]. split.
  - intros item d l Hitem Hd Hid Hok. apply Hiff in Hok.
    eapply Forall_forall in Hok; [|done].
    destruct Hok as (d' & Hd' & Hk). assert (d' = d) as -> by congruence.
    unfold id_key, dict_get in Hk.
    destruct Hid as [Hid|[d'' Hid]]; by rewrite Hid in Hk.
  - intros -> Hfail st. unfold search_step.
    destruct (search_single_test_case cl tc 10) as [wlog [r|e]];
      [by destruct Hfail|done].
Qed.

(** X9 — Deduplication changes nothing when there is nothing to remove:
    memories with pairwise different ids come back as they are, in order;
    so deduplicating a second time gives the same list; and the result is
    never longer than what was found. *)
Theorem dedup_is_idempotent (mem_list : list mem_item) (out : list pydict) :
  dedup mem_list = Ok out →
  dedup (MVal ∘ PDict <$> out) = Ok out ∧
  (length out ≤ length mem_list)%nat ∧
  ∀ ds, Forall (λ d, is_ok (id_key d)) ds → NoDup (id_key <$> ds) →
        dedup (MVal ∘ PDict <$> ds) = Ok ds.
Proof.
  intros Hout.
  assert (∀ ds, Forall (λ d, is_ok (id_key d)) ds → NoDup (id_key <$> ds) →
                dedup (MVal ∘ PDict <$> ds) = Ok ds) as Hdistinct.
  { intros ds Hkeys Hnd.
    rewrite (dedup_returns (MVal ∘ PDict <$> ds) ds); [|by apply Forall2_fmap_l,
      Forall_Forall2_diag, Forall_true|done].
    f_equal. rewrite first_occurrences_from_start.
    apply first_occurrences_after_distinct; [|done].
    intros x _ Hin. by apply elem_of_nil in Hin. }
  destruct (dedup_returned _ _ Hout) as (ds & Hnorm & Hkeys & ->).
  split; [|split; [|done]].
  - apply Hdistinct.
    + apply Forall_forall. intros d Hd. eapply Forall_forall in Hkeys; [done|].
      eapply sublist_subseteq; [|done].
      apply (first_occurrences_after_sublist id_key [] ds).
    + apply (first_occurrences_after_NoDup id_key [] ds).
  - rewrite (Forall2_length _ _ _ Hnorm).
    apply (first_occurrences_after_length id_key [] ds).
Qed.

(** X10 — The first memory found always survives deduplication, so the
    result is empty only when nothing was found: the context is built
    whenever a search returned at least one memory. *)
Theorem first_memory_survives (mem_list : list mem_item) (out : list pydict) :
  dedup mem_list = Ok out →
  (out = [] ↔ mem_list = []) ∧
  ∀ item rest, mem_list = item :: rest →
               ∃ d out', normalize item = Ok d ∧ out = d :: out'.
Proof.
  intros Hout. destruct (dedup_returned _ _ Hout) as (ds & Hnorm & _ & ->).
  destruct Hnorm as [|item d items ds Hd Hrest].
  - split; [done|]. by intros ? ? [=].
  - rewrite first_occurrences_from_start, first_occurrences_after_cons.
    rewrite decide_False by (cbn; apply not_elem_of_nil). cbn.
    split; [split; discriminate|].
    intros item' rest [= <- <-]. by eexists _, _.
Qed.

End dedup_more.

(** ** The search script as a whole *)

Section search_script.
Context {rt : Runtime} {co : Collaborators}.

Lemma search_step_log cl st tc :
  ∃ more,
    tqdm_log (search_step cl st tc) = tqdm_log st ++ more ∧
    ∀ e, (search_single_test_case cl tc 10).2 = Raise e →
         task_error_line tc e ∈ more.
Proof.
  unfold search_step.
  destruct (search_single_test_case cl tc 10) as [wlog [r|e]];
    cbn [mbind result_bind snd].
  - destruct (file_write (store st) (result_line r)); cbn; eexists;
      (split; [done|]); done.
  - eexists. split; [done|]. intros e' [= <-]. set_solver.
Qed.

Lemma search_loop_log_mono cl l st line :
  line ∈ tqdm_log st → line ∈ tqdm_log (foldl (search_step cl) st l).
Proof.
  revert st. induction l as [|tc l IH]; intros st Hin; cbn; [done|].
  apply IH. destruct (search_step_log cl st tc) as (more & -> & _).
  set_solver.
Qed.

Lemma search_loop_logs_failure cl l st tc e :
  tc ∈ l → (search_single_test_case cl tc 10).2 = Raise e →
  task_error_line tc e ∈ tqdm_log (foldl (search_step cl) st l).
Proof.
  revert st. induction l as [|tc' l IH]; intros st Hin He; [set_solver|].
  cbn. apply elem_of_cons in Hin as [<-|Hin]; [|by apply IH].
  apply search_loop_log_mono.
  destruct (search_step_log cl st tc) as (more & -> & Hmore).
  apply elem_of_app. right. by apply Hmore.
Qed.

(** X11 — Failure isolation in the search loop.  Whatever the order in
    which the futures complete, [generate_search_results] handles every
    test case: one that raises is reported with its id and leaves the file
    alone, the others are not affected.  The file keeps the lines it had
    and receives, in completion order, only lines of test cases that
    returned a record; all of them when it accepts the writes. *)
Theorem failure_isolation_in_search
    (order : list test_case → list test_case)
    (disk : option (list string)) (accepts : list string → string → bool)
    (cases : list test_case) (cl : client) :
  (∀ l, order l ≡ₚ l) →
  get_client = Ok cl →
  ∃ st new,
    generate_search_results order disk accepts cases = Ok st ∧
    search_pbar st = length cases ∧
    written (store st) = default [] disk ++ new ∧
    new `sublist_of` omap (task_line cl) (order cases) ∧
    ((∀ w s, accepts w s = true) → new = omap (task_line cl) (order cases)) ∧
    ∀ tc e, tc ∈ cases →
            (search_single_test_case cl tc 10).2 = Raise e →
            task_error_line tc e ∈ tqdm_log st.
Proof.
  intros Hperm Hcl. unfold generate_search_results. rewrite Hcl.
  cbn [mbind result_bind].
  destruct (search_loop_store cl (order cases)
              (SearchState (File (default [] disk) accepts) [] 0))
    as (new & Hw & Hsub & Hall).
  eexists _, new. split; [done|]. split; [|split; [done|split; [done|split]]].
  - rewrite search_loop_pbar. cbn. by rewrite Hperm.
  - exact Hall.
  - intros tc e Htc He. apply search_loop_logs_failure; [|done].
    by rewrite Hperm.
Qed.

(** X12 — The backend is chosen after the work list is computed.  When
    FRAME names no backend, [main] fails with the error of [get_client],
    but only after [collect_test_cases] has run: with the overwrite flag
    (and without run-ids) the result file is already deleted, and nothing
    replaces it. *)
Theorem bad_frame_fails_after_the_file_is_deleted
    (order : list test_case → list test_case) (a : args)
    (disk : option (list string)) (accepts : list string → string → bool)
    (categories : list string) (entries : list test_case) (e : exn) :
  allow_overwrite a = true →
  run_ids a = false →
  get_involved_test_entries (test_category a) (run_ids a)
    = Ok (categories, entries) →
  entries ≠ [] →
  Forall (λ tc, is_ok (sort_key tc)) entries →
  get_client = Raise e →
  main order a disk accepts = (None, Raise e).
Proof.
  intros Hov Hrun Hin Hne Hkeys Hcl. unfold main. rewrite Hin.
  destruct (sorted_resume_filter ∅ entries Hkeys) as (cases & Hsorted & Hperm).
  assert (collect_test_cases a disk entries = (None, Ok cases)) as ->.
  { unfold collect_test_cases. rewrite Hov, Hrun.
    destruct disk; cbn; f_equal; exact Hsorted. }
  assert (cases ≡ₚ entries) as Hall.
  { rewrite Hperm. clear. induction entries as [|tc l IH]; [done|].
    rewrite filter_cons_True by set_solver. by f_equiv. }
  destruct cases as [|tc cases].
  - apply Permutation_nil_l in Hall. by subst.
  - unfold generate_search_results. by rewrite Hcl.
Qed.

(** X13 — Nothing to do.  When every selected test case already has its
    id in the result file (and the overwrite flag is not set), [main]
    leaves the file as it is and ends normally without creating a client:
    the outcome does not depend on FRAME, on the file accepting writes, or
    on the scheduling. *)
Theorem nothing_to_do_touches_nothing
    (order : list test_case → list test_case) (a : args)
    (disk : option (list string)) (accepts : list string → string → bool)
    (categories : list string) (entries : list test_case)
    (ids : gset pykey) :
  allow_overwrite a = false →
  get_involved_test_entries (test_category a) (run_ids a)
    = Ok (categories, entries) →
  stored_ids disk = Ok ids →
  (∀ tc, tc ∈ entries → KStr (tc_id tc) ∈ ids) →
  main order a disk accepts =
    (disk,
     Ok ["Generating search results for categories: "
           +:+ py_str (PList (map PStr categories));
         "✅ All selected test cases already have search results. No new search to generate."]).
Proof.
  intros Hov Hin Hids Hdone. unfold main. rewrite Hin.
  assert (collect_test_cases a disk entries = (disk, Ok [])) as ->; [|done].
  unfold collect_test_cases. rewrite Hov. unfold stored_ids in Hids.
  assert (filter (λ tc, KStr (tc_id tc) ∉ ids) entries = []) as Hnone.
  { clear -Hdone. induction entries as [|tc l IH]; [done|].
    rewrite filter_cons_False.
    - apply IH. intros tc' Htc'. apply Hdone. by apply list_elem_of_further.
    - intros Hnot. apply Hnot, Hdone, list_elem_of_here. }
  destruct disk as [lines|]; cbn; [rewrite Hids|injection Hids as <-];
    cbn [mbind result_bind]; f_equal; by rewrite Hnone.
Qed.

Lemma for_each_app {A S} (body : S → A → result S) l1 l2 acc :
  for_each body (l1 ++ l2) acc =
    acc' ← for_each body l1 acc; for_each body l2 acc'.
Proof.
  revert acc. induction l1 as [|x l1 IH]; intros acc; cbn; [done|].
  destruct (body acc x); cbn; [apply IH|done].
Qed.

(** X14 — A damaged result file stops the resume.  Without the overwrite
    flag the file is read before anything else: at the first line that is
    not JSON, has no [id], or has an unhashable one, [main] ends with that
    exception, leaves the file as it is and starts no search. *)
Theorem damaged_result_file_stops_the_resume
    (order : list test_case → list test_case) (a : args)
    (good rest : list string) (bad : string)
    (accepts : list string → string → bool)
    (categories : list string) (entries : list test_case)
    (ids : gset pykey) (e : exn) :
  allow_overwrite a = false →
  get_involved_test_entries (test_category a) (run_ids a)
    = Ok (categories, entries) →
  load_existing_ids good = Ok ids →
  (entry ← json_loads bad; id ← py_getitem entry "id"; py_hash id) = Raise e →
  main order a (Some (good ++ bad :: rest)) accepts =
    (Some (good ++ bad :: rest), Raise e).
Proof.
  intros Hov Hin Hgood Hbad. unfold main. rewrite Hin.
  assert (load_existing_ids (good ++ bad :: rest) = Raise e) as Hload.
  { unfold load_existing_ids in *. rewrite for_each_app, Hgood.
    cbn [mbind result_bind for_each].
    destruct (json_loads bad) as [entry|]; cbn in *; [|congruence].
    destruct (py_getitem entry "id") as [id|]; cbn in *; [|congruence].
    destruct (py_hash id); cbn in *; [done|congruence]. }
  unfold collect_test_cases. rewrite Hov. cbn. by rewrite Hload.
Qed.

End search_script.

(** ** The result file across runs *)

Section result_file.
Context {rt : Runtime} {co : Collaborators}.




(** X16 — The candidates.  Without the run-ids flag the candidates are
    the entries of the categories the argument parses to, category after
    category; when a category fails to load after these, the script ends
    with that exception.  With the flag the category argument is not
    looked at. *)
Theorem candidates_follow_the_categories
    (test_category_args categories : list string)
    (loaded : list (list test_case)) :
  parse_test_category_argument test_category_args = Ok categories →
  Forall2 (λ category entries, load_dataset_entry category = Ok entries)
          categories loaded →
  get_involved_test_entries test_category_args false
    = Ok (categories, concat loaded) ∧
  (∀ other_args,
     get_involved_test_entries other_args true
     = get_involved_test_entries test_category_args true) ∧
  (∀ longer_args category rest e,
     parse_test_category_argument longer_args
       = Ok (categories ++ category :: rest) →
     load_dataset_entry category = Raise e →
     get_involved_test_entries longer_args false = Raise e).
Proof.
  intros Hparse Hloaded.
  assert (∀ acc,
            for_each (λ acc test_category,
                        entries ← load_dataset_entry test_category;
                        Ok (acc ++ entries)) categories acc
            = Ok (acc ++ concat loaded)) as Hloop.
  { clear Hparse.
    induction Hloaded as [|category entries categories' loaded' Hc _ IH];
      intros acc; cbn.
    - by rewrite app_nil_r.
    - rewrite Hc. cbn. rewrite IH. by rewrite <-(assoc_L (++)). }
  split; [|split].
  - unfold get_involved_test_entries. rewrite Hparse. cbn [mbind result_bind].
    by rewrite Hloop.
  - done.
  - intros longer category rest e Hparse' Hfail.
    unfold get_involved_test_entries.
    rewrite Hparse'. cbn [mbind result_bind].
    rewrite for_each_app, Hloop. cbn. by rewrite Hfail.
Qed.

(** Insertion keeps a list of keyed entries in key order. *)
Lemma insert_by_key_sorted x l :
  (∀ k1 k2, key_leb k1 k2 = true ∨ key_leb k2 k1 = true) →
  Sorted (λ y z, key_leb y.1 z.1 = true) l →
  Sorted (λ y z, key_leb y.1 z.1 = true) (insert_by_key x l).
Proof.
  intros Htotal. induction 1 as [|y l Hl IH Hy]; cbn.
  - repeat constructor.
  - destruct (key_leb x.1 y.1) eqn:Hxy.
    + constructor; [by constructor|]. by constructor.
    + constructor; [done|].
      assert (key_leb y.1 x.1 = true) as Hyx
        by (destruct (Htotal x.1 y.1); congruence).
      destruct Hy as [|z l' Hz]; cbn; [by constructor|].
      destruct (key_leb x.1 z.1); by constructor.
Qed.

Lemma sort_by_key_sorted l :
  (∀ k1 k2, key_leb k1 k2 = true ∨ key_leb k2 k1 = true) →
  Sorted (λ y z, key_leb y.1 z.1 = true) (sort_by_key l).
Proof.
  intros Htotal. induction l as [|x l IH]; cbn; [constructor|].
  by apply insert_by_key_sorted.
Qed.

Lemma keyed_keys l keyed :
  comprehension (λ tc, k ← sort_key tc; Ok (k, tc)) l = Ok keyed →
  Forall (λ p, sort_key p.2 = Ok p.1) keyed.
Proof.
  revert keyed. induction l as [|tc l IH]; intros keyed; cbn.
  - intros [= <-]. constructor.
  - destruct (sort_key tc) as [k|] eqn:Hk; [|done]. cbn [mbind result_bind].
    destruct (comprehension _ l) as [keyed'|]; [|done].
    cbn [mbind result_bind]. intros [= <-]. constructor; [done|]. by apply IH.
Qed.

(** X17 — The work list is in key order.  When the order on sort keys is
    total, the test cases [collect_test_cases] returns come in
    nondecreasing order of their sort keys. *)
Theorem collected_cases_are_in_key_order
    (a : args) (disk disk' : option (list string))
    (entries cases : list test_case) :
  (∀ k1 k2, key_leb k1 k2 = true ∨ key_leb k2 k1 = true) →
  collect_test_cases a disk entries = (disk', Ok cases) →
  ∃ keyed,
    cases = keyed.*2 ∧
    Forall (λ p, sort_key p.2 = Ok p.1) keyed ∧
    Sorted (λ y z, key_leb y.1 z.1 = true) keyed.
Proof.
  intros Htotal. unfold collect_test_cases.
  destruct (match disk with Some _ => _ | None => _ end) as [d existing].
  intros [= _ Hsorted]. destruct existing as [ids|]; [|done].
  cbn [mbind result_bind] in Hsorted. unfold sorted in Hsorted.
  destruct (comprehension _ _) as [keyed|] eqn:Hkeyed; [|done].
  cbn [mbind result_bind] in Hsorted. injection Hsorted as <-.
  exists (sort_by_key keyed). split; [done|]. split.
  - apply keyed_keys in Hkeyed. by rewrite sort_by_key_perm.
  - by apply sort_by_key_sorted.
Qed.

End result_file.

(** ** Building the context *)

Section context.
Context {rt : Runtime} {co : Collaborators}.

Lemma comprehension_is_ok {A B} (f : A → result B) l :
  is_ok (comprehension f l) ↔ Forall (λ x, is_ok (f x)) l.
Proof.
  induction l as [|x l IH]; cbn.
  - split; [constructor|done].
  - rewrite Forall_cons, <-IH. destruct (f x); cbn; [|tauto].
    destruct (comprehension f l); cbn; tauto.
Qed.

Lemma comprehension_twice_is_ok {A B C} (f : A → result B)
    (g : B → result C) l :
  is_ok (ys ← comprehension f l; comprehension g ys) ↔
  Forall (λ x, is_ok (y ← f x; g y)) l.
Proof.
  induction l as [|x l IH]; cbn.
  - split; [constructor|done].
  - rewrite Forall_cons, <-IH. destruct (f x) as [y|]; cbn; [|tauto].
    destruct (comprehension f l) as [ys|]; cbn; [|tauto].
    destruct (g y); cbn; [|tauto]. destruct (comprehension g ys); cbn; tauto.
Qed.

Lemma is_ok_bind_ok {A B} (m : result A) (f : A → B) :
  is_ok (x ← m; Ok (f x)) ↔ is_ok m.
Proof. by destruct m. Qed.

(** X18 — When the context can be built.  Under "supermemory"
    [create_mem_context] returns exactly when every memory has a [memory]
    field holding a string; under "mem0" exactly when every memory has a
    [created_at] and a [memory] field.  Whenever it returns, the context
    neither starts nor ends with white space: stripping it again changes
    nothing. *)
Theorem context_is_built_iff_the_fields_are_there
    (frame : string) (mems : list pydict) :
  getenv "FRAME" = Some frame →
  (frame = "supermemory" →
   (is_ok (create_mem_context mems) ↔
    Forall (λ d, ∃ s, dict_lookup d "memory" = Some (PStr s)) mems)) ∧
  (frame = "mem0" →
   (is_ok (create_mem_context mems) ↔
    Forall (λ d, is_Some (dict_lookup d "created_at") ∧
                 is_Some (dict_lookup d "memory")) mems)) ∧
  (∀ ctx, create_mem_context mems = Ok ctx → strip ctx = ctx).
Proof.
  intros Hframe. split; [|split].
  - intros ->. unfold create_mem_context. rewrite Hframe.
    rewrite decide_False by done. rewrite decide_False by done.
    rewrite decide_True by done. rewrite is_ok_bind_ok.
    assert (∀ (m : result (list pyval)),
              is_ok (texts ← m; lines ← comprehension as_str texts;
                     Ok (join newline lines)) ↔
              is_ok (texts ← m; comprehension as_str texts)) as Hjoin.
    { intros [texts|]; [|done]. cbn. by destruct (comprehension as_str texts). }
    rewrite Hjoin, comprehension_twice_is_ok.
    apply Forall_proper; [|done]. intros d. unfold dict_item.
    destruct (dict_lookup d "memory") as [v|]; cbn;
      [|split; [done|by intros [? [=]]]].
    destruct v; cbn; try (split; [done|by intros [? [=]]]).
    split; [by eauto|done].
  - intros ->. unfold create_mem_context. rewrite Hframe.
    rewrite decide_False by done. rewrite decide_True by done.
    rewrite is_ok_bind_ok, is_ok_bind_ok, comprehension_is_ok.
    apply Forall_proper; [|done]. intros d. unfold dict_item.
    destruct (dict_lookup d "created_at"); cbn;
      [|split; [done|by intros [[? [=]] _]]].
    destruct (dict_lookup d "memory"); cbn;
      [split; [by eauto|done]|split; [done|by intros [_ [? [=]]]]].
  - intros ctx. unfold create_mem_context.
    destruct (if decide (getenv "FRAME" = Some "memos-api") then _ else _);
      [|done].
    cbn. intros [= <-]. apply strip_idem.
Qed.

Lemma filter_raising_none {A} (cond : A → result bool) l :
  Forall (λ x, cond x = Ok false) l → filter_raising cond l = Ok [].
Proof.
  induction 1 as [|x l Hx _ IH]; cbn; [done|]. by rewrite Hx, IH.
Qed.

(** X19 — Under "memos-api", when none of the memories is of type
    "ToolTrajectoryMemory" (each has a [metadata.memory_type] that says
    otherwise), the context is the empty string. *)
Theorem memos_api_context_without_tool_memories (mems : list pydict) :
  getenv "FRAME" = Some "memos-api" →
  Forall (λ d, ∃ metadata memory_type,
                 dict_lookup d "metadata" = Some metadata ∧
                 py_getitem metadata "memory_type" = Ok memory_type ∧
                 memory_type ≠ PStr "ToolTrajectoryMemory") mems →
  create_mem_context mems = Ok "".
Proof.
  intros Hframe Hmems. unfold create_mem_context. rewrite Hframe.
  rewrite decide_True by done.
  assert (filter_raising
            (λ item, metadata ← dict_item item "metadata";
                     memory_type ← py_getitem metadata "memory_type";
                     Ok (is_tool_trajectory memory_type)) mems = Ok []) as ->.
  { apply filter_raising_none. eapply Forall_impl; [done|].
    intros d (md & mt & Hmd & Hmt & Hne). unfold dict_item. rewrite Hmd.
    cbn [mbind result_bind]. rewrite Hmt. cbn [mbind result_bind].
    destruct (is_tool_trajectory mt) eqn:Htool; [|done].
    by apply is_tool_trajectory_true in Htool. }
  done.
Qed.

End context.

(** ** Rebuilding the messages *)

Section rebuild.
Context {rt : Runtime} {co : Collaborators}.





End rebuild.

(** * Further runs of the sample world *)


(** The identifier " A", with a space in front, is submitted although the
    ledger has its line. *)
Lemma unstripped_id_run :
  strip " A" = "A" ∧
  Conversation " A" [] ∈
    submitted [Conversation " A" []]
      (load_success_records (Some [" A" +:+ newline])).
Proof.
  split; [reflexivity|].
  apply (unstripped_id_is_always_resubmitted [Conversation " A" []]
           (Some [" A" +:+ newline]) (Conversation " A" [])).
  - apply list_elem_of_here.
  - discriminate.
Defined.

(** "mem0_graph", which the argument parser offers, is not a backend of
    [process_single_conversation]: nothing is ingested under it. *)
Lemma unknown_frame_run :
  ¬ ("mem0_graph" ∈ valid_frames) ∧
  report_completed
    (@ingest_conversation Sample.mem0_v1 reverse Sample.data Sample.backend
       "mem0_graph" 5 [] (Some (File [] Sample.reliable))) = 0%nat ∧
  report_ledger
    (@ingest_conversation Sample.mem0_v1 reverse Sample.data Sample.backend
       "mem0_graph" 5 [] (Some (File [] Sample.reliable)))
  = Some (File [] Sample.reliable).
Proof.
  assert ("mem0_graph" ∉ valid_frames) as Hnot.
  { intros Hin. unfold valid_frames in Hin.
    repeat (apply elem_of_cons in Hin as [Hin|Hin]; [discriminate Hin|]).
    by apply elem_of_nil in Hin. }
  split; [exact Hnot|].
  destruct (@unknown_frame_ingests_nothing Sample.mem0_v1 reverse Sample.data
              Sample.backend "mem0_graph" 5 [] (File [] Sample.reliable)
              reverse_Permutation Hnot) as (Hcount & _ & Hledger & _).
  split; [exact Hcount|exact Hledger].
Defined.

(** The directory holds [a.jsonl] with the lines "{A}", a blank line,
    "oops" and "{B}", and a text file: two records are loaded. *)
Lemma load_data_run :
  ∃ out,
    @load_data (Sample.strict None) (Some Sample.directory) "data"
    = Ok ([PDict [("id", PStr "{A}")]; PDict [("id", PStr "{B}")]], out).
Proof.
  destruct (@load_data_skips_unreadable_lines (Sample.strict None)
              Sample.directory "data") as (out & Hout & _).
  - repeat constructor; intros _; repeat constructor;
      try (right; reflexivity); left; reflexivity.
  - exists out. exact Hout.
Defined.

(** Of a tool trajectory and a text memory, "memos-api" keeps the first. *)
Lemma memos_api_run :
  @search_memory (Sample.runtime (Some "memos-api") None)
    Sample.memos_backend "q" "T" 10
  = Ok (MemItems [MVal Sample.tool_memory]) ∧
  ∃ kept, MemItems [MVal Sample.tool_memory] = MemItems (MVal <$> kept) ∧
          kept `sublist_of` [Sample.tool_memory; Sample.text_memory].
Proof.
  split; [reflexivity|].
  destruct (@memos_api_keeps_only_tool_trajectories
              (Sample.runtime (Some "memos-api") None) Sample.memos_backend
              "q" "T" 10 (MemItems [MVal Sample.tool_memory])
              eq_refl eq_refl)
    as (rsps & tool_mem & first & mems & all & kept & Hr & H1 & H2 & H3 & H4
        & Hfound & Hsub & _).
  exists kept. split; [exact Hfound|].
  injection Hr as <-. injection H1 as <-. injection H2 as <-.
  injection H3 as <-. injection H4 as <-. exact Hsub.
Defined.

(** The backend fails on the question "zzz": the record of the test case
    is empty, and its line is written. *)
Lemma failed_searches_run :
  ∃ log,
    @search_single_test_case Sample.supermemory Sample.backend
      (Sample.case "T" ["zzz"]) 10
    = (log, Ok (SearchResult "T" ["zzz"] [] "")) ∧
    length log = 1%nat.
Proof.
  destruct (@failed_searches_give_an_empty_record Sample.supermemory
              Sample.backend (Sample.case "T" ["zzz"])
              (SearchState (File [] Sample.reliable) [] 0))
    as (log & Hrecord & Hlen & _).
  - repeat constructor. intros [].
  - reflexivity.
  - exists log. split; [exact Hrecord|exact Hlen].
Defined.

(** Under "memu", which [get_client] accepts, the search finds nothing. *)
Lemma unread_backend_run :
  ∃ log,
    @search_single_test_case (Sample.runtime (Some "memu") None)
      Sample.backend (Sample.case "T" ["first"]) 10
    = (log, Ok (SearchResult "T" ["first"] [] "")).
Proof.
  destruct (@unread_backends_find_nothing (Sample.runtime (Some "memu") None)
              "memu" Sample.backend (Sample.case "T" ["first"]) 10 eq_refl)
    as (_ & log & Hrecord & _).
  - intros Hin.
    repeat (apply elem_of_cons in Hin as [Hin|Hin]; [discriminate Hin|]).
    by apply elem_of_nil in Hin.
  - exists log. exact Hrecord.
Defined.

(** A memory with a list as id: the test case raises. *)
Lemma unhashable_id_run :
  ¬ is_ok (@search_single_test_case Sample.supermemory Sample.odd_backend
             (Sample.case "T" ["q"]) 10).2.
Proof.
  destruct (@record_iff_every_memory_has_a_key Sample.supermemory
              Sample.odd_backend (Sample.case "T" ["q"]) 10)
    as (_ & Hlist & _).
  apply (Hlist (MObj [("id", PList [])]) [("id", PList [])] []).
  - apply list_elem_of_here.
  - reflexivity.
  - left. reflexivity.
Defined.

(** Deduplicating the memories 1, 2, 2 gives 1, 2, and doing it again
    gives 1, 2. *)
Lemma dedup_twice_run :
  @dedup Sample.supermemory
    [MObj (Sample.mem 1); MObj (Sample.mem 2); MObj (Sample.mem 2)]
  = Ok [Sample.mem 1; Sample.mem 2] ∧
  @dedup Sample.supermemory (MVal ∘ PDict <$> [Sample.mem 1; Sample.mem 2])
  = Ok [Sample.mem 1; Sample.mem 2].
Proof.
  split; [reflexivity|].
  destruct (@dedup_is_idempotent Sample.supermemory
              [MObj (Sample.mem 1); MObj (Sample.mem 2); MObj (Sample.mem 2)]
              [Sample.mem 1; Sample.mem 2] eq_refl) as (Hagain & _).
  exact Hagain.
Defined.

(** The first of the memories 1, 2, 2 heads the result. *)
Lemma first_memory_run :
  ∃ d out', @normalize Sample.supermemory (MObj (Sample.mem 1)) = Ok d ∧
            [Sample.mem 1; Sample.mem 2] = d :: out'.
Proof.
  destruct (@first_memory_survives Sample.supermemory
              [MObj (Sample.mem 1); MObj (Sample.mem 2); MObj (Sample.mem 2)]
              [Sample.mem 1; Sample.mem 2] eq_refl) as (_ & Hfirst).
  exact (Hfirst (MObj (Sample.mem 1))
           [MObj (Sample.mem 2); MObj (Sample.mem 2)] eq_refl).
Defined.

(** The run over C, A and B handles all three and appends to the line
    the file had. *)
Lemma search_isolation_run :
  @get_client Sample.supermemory Sample.collaborators = Ok Sample.backend ∧
  ∃ st new,
    @generate_search_results Sample.supermemory Sample.collaborators reverse
      (Some ["Z" +:+ newline]) Sample.reliable Sample.entries = Ok st ∧
    search_pbar st = 3%nat ∧
    written (store st) = ["Z" +:+ newline] ++ new.
Proof.
  split; [reflexivity|].
  destruct (@failure_isolation_in_search Sample.supermemory
              Sample.collaborators reverse (Some ["Z" +:+ newline])
              Sample.reliable Sample.entries Sample.backend
              reverse_Permutation eq_refl)
    as (st & new & Hrun & Hbar & Hwritten & _).
  exists st, new. split; [exact Hrun|]. split; [exact Hbar|exact Hwritten].
Defined.

(** FRAME is "nope" and the overwrite flag is set: the script fails, and
    the result file is gone. *)
Lemma bad_frame_run :
  @get_client (Sample.runtime (Some "nope") None) Sample.collaborators
  = Raise (Exn ValueError "Invalid frame: nope") ∧
  @main (Sample.runtime (Some "nope") None) Sample.collaborators reverse
    (Args ["simple"] false true 10) (Some ["A" +:+ newline]) Sample.reliable
  = (None, Raise (Exn ValueError "Invalid frame: nope")).
Proof.
  split; [reflexivity|].
  apply (@bad_frame_fails_after_the_file_is_deleted
           (Sample.runtime (Some "nope") None) Sample.collaborators reverse
           (Args ["simple"] false true 10) (Some ["A" +:+ newline])
           Sample.reliable ["simple"] Sample.entries
           (Exn ValueError "Invalid frame: nope") eq_refl eq_refl eq_refl).
  - discriminate.
  - exact sort_keys_defined.
  - reflexivity.
Defined.

(** A, B and C are all in the result file: the script ends at once and
    the file is as it was, although FRAME names no backend. *)
Lemma nothing_to_do_run :
  @main (Sample.runtime (Some "nope") None) Sample.collaborators reverse
    (Args ["simple"] false false 10)
    (Some ["A" +:+ newline; "B" +:+ newline; "C" +:+ newline]) Sample.broken
  = (Some ["A" +:+ newline; "B" +:+ newline; "C" +:+ newline],
     Ok ["Generating search results for categories: ?";
         "✅ All selected test cases already have search results. No new search to generate."]).
Proof.
  apply (@nothing_to_do_touches_nothing
           (Sample.runtime (Some "nope") None) Sample.collaborators reverse
           (Args ["simple"] false false 10)
           (Some ["A" +:+ newline; "B" +:+ newline; "C" +:+ newline])
           Sample.broken ["simple"] Sample.entries
           ({[KStr "C"]} ∪ ({[KStr "B"]} ∪ ({[KStr "A"]} ∪ ∅)))
           eq_refl eq_refl eq_refl).
  intros tc Htc.
  repeat (apply elem_of_cons in Htc as [->|Htc]); [| | |by apply elem_of_nil in Htc];
    cbn [tc_id Sample.case]; set_solver.
Defined.

(** The second line of the result file is not JSON: the script stops
    there. *)
Lemma damaged_file_run :
  @main (Sample.strict (Some "supermemory")) Sample.collaborators reverse
    (Args ["simple"] false false 10)
    (Some (["{A}" +:+ newline] ++ "oops" :: ["{B}" +:+ newline]))
    Sample.reliable
  = (Some (["{A}" +:+ newline] ++ "oops" :: ["{B}" +:+ newline]),
     Raise (Exn JSONDecodeError "Expecting value")).
Proof.
  exact (@damaged_result_file_stops_the_resume
           (Sample.strict (Some "supermemory")) Sample.collaborators reverse
           (Args ["simple"] false false 10) ["{A}" +:+ newline]
           ["{B}" +:+ newline] "oops" Sample.reliable ["simple"]
           Sample.entries ({[KStr ("{A}" +:+ newline)]} ∪ ∅)
           (Exn JSONDecodeError "Expecting value")
           eq_refl eq_refl eq_refl eq_refl).
Defined.



(** Two categories: the candidates are the entries of the first followed
    by those of the second. *)
Lemma candidates_run :
  @get_involved_test_entries Sample.collaborators ["x"; "y"] false
  = Ok (["x"; "y"], Sample.entries ++ Sample.entries).
Proof.
  destruct (@candidates_follow_the_categories Sample.collaborators
              ["x"; "y"] ["x"; "y"] [Sample.entries; Sample.entries]
              eq_refl) as (Hconcat & _).
  - repeat constructor.
  - exact Hconcat.
Defined.

(** C, A and B are collected as A, B, C. *)
Lemma key_order_run :
  @collect_test_cases Sample.supermemory Sample.collaborators
    (Args [] false false 10) None Sample.entries
  = (None, Ok [Sample.case "A" ["first"]; Sample.case "B" ["second"];
               Sample.case "C" ["first"; "second"]]) ∧
  ∃ keyed,
    [Sample.case "A" ["first"]; Sample.case "B" ["second"];
     Sample.case "C" ["first"; "second"]] = keyed.*2 ∧
    Sorted (λ y z, @key_leb Sample.collaborators y.1 z.1 = true) keyed.
Proof.
  split; [reflexivity|].
  destruct (@collected_cases_are_in_key_order Sample.supermemory
              Sample.collaborators (Args [] false false 10) None None
              Sample.entries
              [Sample.case "A" ["first"]; Sample.case "B" ["second"];
               Sample.case "C" ["first"; "second"]]
              String.leb_total eq_refl) as (keyed & Hcases & _ & Hsorted).
  exists keyed. split; [exact Hcases|exact Hsorted].
Defined.

(** The memory 1 has a text: its context can be built; it is "1". *)
Lemma context_fields_run :
  @create_mem_context Sample.supermemory [Sample.mem 1] = Ok "1" ∧
  is_ok (@create_mem_context Sample.supermemory [Sample.mem 1]) ∧
  strip "1" = "1".
Proof.
  split; [reflexivity|].
  destruct (@context_is_built_iff_the_fields_are_there Sample.supermemory
              "supermemory" [Sample.mem 1] eq_refl) as (Hiff & _ & Hstrip).
  split.
  - apply (Hiff eq_refl). repeat constructor. by exists "1".
  - exact (Hstrip "1" eq_refl).
Defined.

(** A text memory alone gives an empty "memos-api" context. *)
Lemma memos_context_run :
  @create_mem_context (Sample.runtime (Some "memos-api") None)
    [[("metadata", PDict [("memory_type", PStr "TextMemory")])]] = Ok "".
Proof.
  apply (@memos_api_context_without_tool_memories
           (Sample.runtime (Some "memos-api") None)
           [[("metadata", PDict [("memory_type", PStr "TextMemory")])]]
           eq_refl).
  repeat constructor.
  exists (PDict [("memory_type", PStr "TextMemory")]), (PStr "TextMemory").
  split; [reflexivity|]. split; [reflexivity|discriminate].
Defined.

